(** * typescript-canvas-assets: Vector2, Polygon, Collision2D and Math

    A shallow embedding of the geometry toolkit (class [Vector2], namespaces
    [Polygon] and [Collision2D], the functions added to [Math]) and the
    properties checked against it.

    A TypeScript [number] is an IEEE 754 binary64 value.  The functions are
    written once over an interface [Number] of the operations they use and
    read at two instances:

    - [IEEE]: Rocq's primitive [float], which is binary64 with the very
      rounding, infinities, signed zeros and NaN of the JavaScript run
      ([Math.sqrt] being the correctly rounded square root, as engines
      compute it); every definition evaluates there;
    - [Exact]: the real numbers, the same formulas without rounding,
      overflow or NaN; it says what the formulas mean and agrees with the
      run only where no operation rounds or is undefined.

    Objects that the code mutates in place (polygon vertices, the [position]
    argument of [TranslateTo]) live in a store indexed by object identity. *)

From Stdlib Require Import List ZArith Bool Lia Floats Uint63 Reals Lra.
From Stdlib Require Ascii String.
Import ListNotations.

(* Decimal literals such as 0.1 stand for the nearest binary64 value, as in
   JavaScript. *)
Set Warnings "-inexact-float".

Set Implicit Arguments.

(* ================================================================== *)
(** ** Numbers *)

Declare Scope js_scope.
Delimit Scope js_scope with js.

(** The arithmetic, comparison and [Math] operations the sources apply to
    numbers. [lit] reads an integer literal of the source. *)
Class Number (N : Type) : Type := {
  lit : Z -> N;
  num_add : N -> N -> N;
  num_sub : N -> N -> N;
  num_mul : N -> N -> N;
  num_div : N -> N -> N;
  num_neg : N -> N;
  Math_sqrt : N -> N;
  Math_abs : N -> N;
  num_lt : N -> N -> bool;
  num_le : N -> N -> bool;
  num_eq : N -> N -> bool;
  isNaN : N -> bool
}.

(** The part of the platform's [Math] object that has no counterpart among
    the primitive float operations. *)
Class MathLib (N : Type) : Type := {
  Math_PI : N;
  Math_sin : N -> N;
  Math_cos : N -> N
}.

Infix "+" := num_add : js_scope.
Infix "-" := num_sub : js_scope.
Infix "*" := num_mul : js_scope.
Infix "/" := num_div : js_scope.
Notation "- a" := (num_neg a) : js_scope.
Notation "a <? b" := (num_lt a b) : js_scope.
Notation "a >? b" := (num_lt b a) : js_scope.
Notation "a <=? b" := (num_le a b) : js_scope.
Notation "a >=? b" := (num_le b a) : js_scope.
Notation "a =? b" := (num_eq a b) : js_scope.

(** [a || b] on numbers: [b] when [a] is falsy, that is [0], [-0] or NaN. *)
Definition js_or {N} `{Number N} (a b : N) : N :=
  if (num_eq a (lit 0) || isNaN a)%bool then b else a.

(** binary64, as the JavaScript engine computes. *)
Definition float_lit (z : Z) : float :=
  match z with
  | Z0 => PrimFloat.zero
  | Zpos _ => PrimFloat.of_uint63 (Uint63.of_Z z)
  | Zneg _ => PrimFloat.opp (PrimFloat.of_uint63 (Uint63.of_Z (Z.opp z)))
  end.

#[export] Instance IEEE : Number float := {|
  lit := float_lit;
  num_add := PrimFloat.add;
  num_sub := PrimFloat.sub;
  num_mul := PrimFloat.mul;
  num_div := PrimFloat.div;
  num_neg := PrimFloat.opp;
  Math_sqrt := PrimFloat.sqrt;
  Math_abs := PrimFloat.abs;
  num_lt := PrimFloat.ltb;
  num_le := PrimFloat.leb;
  num_eq := PrimFloat.eqb;
  isNaN := PrimFloat.is_nan
|}.

(** [Math.PI] as a double; sine and cosine are the engine's. *)
Definition IEEE_Math (sin cos : float -> float) : MathLib float := {|
  Math_PI := 0x1.921fb54442d18p+1%float;
  Math_sin := sin;
  Math_cos := cos
|}.

(** Exact arithmetic on the reals. A quotient by zero is [Rdiv]'s (0), and
    nothing is NaN, where the run gives an infinity or NaN: the properties
    read at this instance are stated where no divisor is zero. *)
#[export] Instance Exact : Number R := {|
  lit := IZR;
  num_add := Rplus;
  num_sub := Rminus;
  num_mul := Rmult;
  num_div := Rdiv;
  num_neg := Ropp;
  Math_sqrt := sqrt;
  Math_abs := Rabs;
  num_lt := fun a b => if Rlt_dec a b then true else false;
  num_le := fun a b => if Rle_dec a b then true else false;
  num_eq := fun a b => if Req_dec_T a b then true else false;
  isNaN := fun _ => false
|}.

#[export] Instance Exact_Math : MathLib R := {|
  Math_PI := PI;
  Math_sin := sin;
  Math_cos := cos
|}.

(** [Math.max] and [Math.min] of two numbers, and [Math.floor]. *)
Class MathOrder (N : Type) : Type := {
  Math_max : N -> N -> N;
  Math_min : N -> N -> N
}.

Class MathFloor (N : Type) : Type := {
  Math_floor : N -> N
}.

(** In binary64 a NaN argument gives NaN, and of the two zeros [-0] is the
    smaller. *)
Definition float_max (a b : float) : float :=
  if (PrimFloat.is_nan a || PrimFloat.is_nan b)%bool then PrimFloat.nan
  else if PrimFloat.ltb a b then b
  else if PrimFloat.ltb b a then a
  else if PrimFloat.get_sign a then b else a.

Definition float_min (a b : float) : float :=
  if (PrimFloat.is_nan a || PrimFloat.is_nan b)%bool then PrimFloat.nan
  else if PrimFloat.ltb a b then a
  else if PrimFloat.ltb b a then b
  else if PrimFloat.get_sign a then a else b.

#[export] Instance IEEE_Order : MathOrder float := {|
  Math_max := float_max;
  Math_min := float_min
|}.

#[export] Instance Exact_Order : MathOrder R := {|
  Math_max := Rmax;
  Math_min := Rmin
|}.

#[export] Instance Exact_Floor : MathFloor R := {|
  Math_floor := fun r => IZR (Zfloor r)
|}.

(* ================================================================== *)
(** ** Points, circles, line segments *)

(** [interface Point { x: number, y: number }]; also the fields of a
    [Vector2]. *)
Record Point (N : Type) : Type := mkPoint { x : N; y : N }.
Arguments mkPoint {N} _ _.
Arguments x {N} _.
Arguments y {N} _.

(** [interface Circle { radius: number, center: Point }]. *)
Record Circle (N : Type) : Type := mkCircle { radius : N; center : Point N }.
Arguments mkCircle {N} _ _.
Arguments radius {N} _.
Arguments center {N} _.

(** [LINE SEGMENT: POINT[2] = [POINT, POINT]]: [line[0]] is [fst line] and
    [line[1]] is [snd line]. *)
Definition LineSegment (N : Type) : Type := (Point N * Point N)%type.

(** How a call that can throw ends. [polygon[0]] of an empty array is
    [undefined], and the callee's first read of a field of [undefined]
    throws a [TypeError]. *)
Inductive Completion (A : Type) : Type :=
| Normal (value : A)
| ThrowTypeError.
Arguments Normal {A} _.
Arguments ThrowTypeError {A}.

(* ================================================================== *)
(** ** class Vector2 *)

Module Vector2.
Section Defs.
Context {N : Type} `{Number N}.
Local Open Scope js_scope.

(** [constructor(x?, y?)]: [this.x = x || 0; this.y = y || 0]. *)
Definition new (x y : N) : Point N :=
  {| x := js_or x (lit 0); y := js_or y (lit 0) |}.

Definition Length (v : Point N) : N :=
  Math_sqrt (v.(x) * v.(x) + v.(y) * v.(y)).

Definition Normalize (v : Point N) : Point N :=
  let length := js_or (Math_sqrt (v.(x) * v.(x) + v.(y) * v.(y))) (lit 1) in
  let x := v.(x) / length in
  let y := v.(y) / length in
  new x y.

Definition DistanceBetween (v1 v2 : Point N) : N :=
  let dx := v1.(x) - v2.(x) in
  let dy := v1.(y) - v2.(y) in
  let dsq := dx * dx + dy * dy in
  Math_sqrt dsq.

(** Instance methods update the receiver and return it: the result is the
    receiver's new state. *)
Definition length (this : Point N) : N :=
  Math_sqrt (this.(x) * this.(x) + this.(y) * this.(y)).

Definition normalize (this : Point N) : Point N :=
  let length := js_or (Math_sqrt (this.(x) * this.(x) + this.(y) * this.(y))) (lit 1) in
  let this1 := {| x := this.(x) / length; y := this.(y) |} in
  {| x := this1.(x); y := this1.(y) / length |}.

(** *** The other static operations

    Each builds its result with the constructor. *)
Definition Add (v1 v2 : Point N) : Point N :=
  let x := v1.(x) + v2.(x) in
  let y := v1.(y) + v2.(y) in
  new x y.

Definition AddScalar (v : Point N) (s : N) : Point N :=
  let x := v.(x) + s in
  let y := v.(y) + s in
  new x y.

Definition Subtract (v1 v2 : Point N) : Point N :=
  let x := v1.(x) - v2.(x) in
  let y := v1.(y) - v2.(y) in
  new x y.

Definition SubtractScalar (v : Point N) (s : N) : Point N :=
  let x := v.(x) - s in
  let y := v.(y) - s in
  new x y.

Definition Multiply (v1 v2 : Point N) : Point N :=
  let x := v1.(x) * v2.(x) in
  let y := v1.(y) * v2.(y) in
  new x y.

Definition MultiplyScalar (v : Point N) (s : N) : Point N :=
  let x := v.(x) * s in
  let y := v.(y) * s in
  new x y.

Definition Divide (v1 v2 : Point N) : Point N :=
  let x := v1.(x) / v2.(x) in
  let y := v1.(y) / v2.(y) in
  new x y.

Definition DivideScalar (v : Point N) (s : N) : Point N :=
  let x := v.(x) / s in
  let y := v.(y) / s in
  new x y.

(** [x] and [y] are first the normalized components, then multiplied in
    place ([x *= length; y *= length]). *)
Definition SetLength (v : Point N) (length : N) : Point N :=
  let len := js_or (Math_sqrt (v.(x) * v.(x) + v.(y) * v.(y))) (lit 1) in
  let x0 := v.(x) / len in
  let y0 := v.(y) / len in
  let x1 := x0 * length in
  let y1 := y0 * length in
  new x1 y1.

Definition ConvertObject (point : Point N) : Point N :=
  new point.(x) point.(y).

Definition ConvertArray (points : list (Point N)) : list (Point N) :=
  fold_left (fun toReturn i => toReturn ++ [ new (nth i points (new (lit 0) (lit 0))).(x)
                                                 (nth i points (new (lit 0) (lit 0))).(y) ])
            (seq 0 (List.length points)) [].

(** *** The other instance methods

    Each writes the receiver's fields, [x] first, and returns the receiver.
    No statement reads a field that an earlier statement of the same method
    has written, so an argument that is the receiver itself changes
    nothing. *)
Definition clone (this : Point N) : Point N :=
  new this.(x) this.(y).

Definition copy (this v : Point N) : Point N :=
  let this1 := {| x := v.(x); y := this.(y) |} in
  {| x := this1.(x); y := v.(y) |}.

Definition add (this v : Point N) : Point N :=
  let this1 := {| x := this.(x) + v.(x); y := this.(y) |} in
  {| x := this1.(x); y := this1.(y) + v.(y) |}.

Definition addScalar (this : Point N) (s : N) : Point N :=
  let this1 := {| x := this.(x) + s; y := this.(y) |} in
  {| x := this1.(x); y := this1.(y) + s |}.

Definition subtract (this v : Point N) : Point N :=
  let this1 := {| x := this.(x) - v.(x); y := this.(y) |} in
  {| x := this1.(x); y := this1.(y) - v.(y) |}.

Definition subtractScalar (this : Point N) (s : N) : Point N :=
  let this1 := {| x := this.(x) - s; y := this.(y) |} in
  {| x := this1.(x); y := this1.(y) - s |}.

Definition multiply (this v : Point N) : Point N :=
  let this1 := {| x := this.(x) * v.(x); y := this.(y) |} in
  {| x := this1.(x); y := this1.(y) * v.(y) |}.

Definition multiplyScalar (this : Point N) (s : N) : Point N :=
  let this1 := {| x := this.(x) * s; y := this.(y) |} in
  {| x := this1.(x); y := this1.(y) * s |}.

Definition divide (this v : Point N) : Point N :=
  let this1 := {| x := this.(x) / v.(x); y := this.(y) |} in
  {| x := this1.(x); y := this1.(y) / v.(y) |}.

Definition divideScalar (this : Point N) (s : N) : Point N :=
  let this1 := {| x := this.(x) / s; y := this.(y) |} in
  {| x := this1.(x); y := this1.(y) / s |}.

Definition distanceTo (this v : Point N) : N :=
  let dx := this.(x) - v.(x) in
  let dy := this.(y) - v.(y) in
  let dsq := dx * dx + dy * dy in
  Math_sqrt dsq.

Definition setLength (this : Point N) (length : N) : Point N :=
  let len := js_or (Math_sqrt (this.(x) * this.(x) + this.(y) * this.(y))) (lit 1) in
  let this1 := {| x := this.(x) / len; y := this.(y) |} in
  let this2 := {| x := this1.(x); y := this1.(y) / len |} in
  let this3 := {| x := this2.(x) * length; y := this2.(y) |} in
  {| x := this3.(x); y := this3.(y) * length |}.

Section Rotation.
Context `{MathLib N}.

Definition RotateAround (v center : Point N) (angle : N) : Point N :=
  let c := Math_cos angle in
  let s := Math_sin angle in
  let x0 := v.(x) - center.(x) in
  let y0 := v.(y) - center.(y) in
  let nx := x0 * c - y0 * s + center.(x) in
  let ny := x0 * s + y0 * c + center.(y) in
  new nx ny.

Definition rotateAround (this center : Point N) (angle : N) : Point N :=
  let c := Math_cos angle in
  let s := Math_sin angle in
  let x0 := this.(x) - center.(x) in
  let y0 := this.(y) - center.(y) in
  let this1 := {| x := x0 * c - y0 * s + center.(x); y := this.(y) |} in
  {| x := this1.(x); y := x0 * s + y0 * c + center.(y) |}.
End Rotation.

(** [setRandomDirection], the two values [Math.random()] returns being
    [r1] and [r2]: [getRandomArbitrary(-100, 100)] twice, then
    [this.normalize()]. *)
Definition getRandomArbitrary (r min max : N) : N :=
  r * (max - min) + min.

Definition setRandomDirection (this : Point N) (r1 r2 : N) : Point N :=
  let this1 := {| x := getRandomArbitrary r1 (lit (-100)) (lit 100); y := this.(y) |} in
  let this2 := {| x := this1.(x); y := getRandomArbitrary r2 (lit (-100)) (lit 100) |} in
  normalize this2.
End Defs.
End Vector2.

(* ================================================================== *)
(** ** namespace Collision2D *)

Module Collision2D.
Section Defs.
Context {N : Type} `{Number N}.
Local Open Scope js_scope.

Definition PointOnLineSegment (point : Point N) (line : LineSegment N)
    (threshold : N) : bool :=
  let currPoint := point in
  let point1 := fst line in
  let point2 := snd line in
  let dxc := currPoint.(x) - point1.(x) in
  let dyc := currPoint.(y) - point1.(y) in
  let dxl := point2.(x) - point1.(x) in
  let dyl := point2.(y) - point1.(y) in
  let cross := dxc * dyl - dyc * dxl in
  if Math_abs cross >? threshold then false
  else if Math_abs dxl >=? Math_abs dyl then
    if dxl >? lit 0
    then (point1.(x) <=? currPoint.(x)) && (currPoint.(x) <=? point2.(x))
    else (point2.(x) <=? currPoint.(x)) && (currPoint.(x) <=? point1.(x))
  else
    if dyl >? lit 0
    then (point1.(y) <=? currPoint.(y)) && (currPoint.(y) <=? point2.(y))
    else (point2.(y) <=? currPoint.(y)) && (currPoint.(y) <=? point1.(y)).

(** The default [threshold = 0]. *)
Definition PointOnLineSegment0 (point : Point N) (line : LineSegment N) : bool :=
  PointOnLineSegment point line (lit 0).

(** [(p1.y - p2.y) * p1.y - p2.y] is transcribed as written. *)
Definition PointInsideCircle (point : Point N) (circle : Circle N) : bool :=
  let p1 := point in
  let p2 := circle.(center) in
  let dist := Math_sqrt ((p1.(x) - p2.(x)) * (p1.(x) - p2.(x))
                         + (p1.(y) - p2.(y)) * p1.(y) - p2.(y)) in
  dist <? circle.(radius).

Definition LineSegmentsIntersection_s (line1 line2 : LineSegment N) : N :=
  let e1 := line1 in
  let e2 := line2 in
  let s1_x := (snd e1).(x) - (fst e1).(x) in
  let s1_y := (snd e1).(y) - (fst e1).(y) in
  let s2_x := (snd e2).(x) - (fst e2).(x) in
  let s2_y := (snd e2).(y) - (fst e2).(y) in
  (- s1_y * ((fst e1).(x) - (fst e2).(x)) + s1_x * ((fst e1).(y) - (fst e2).(y)))
    / (- s2_x * s1_y + s1_x * s2_y).

Definition LineSegmentsIntersection_t (line1 line2 : LineSegment N) : N :=
  let e1 := line1 in
  let e2 := line2 in
  let s1_x := (snd e1).(x) - (fst e1).(x) in
  let s1_y := (snd e1).(y) - (fst e1).(y) in
  let s2_x := (snd e2).(x) - (fst e2).(x) in
  let s2_y := (snd e2).(y) - (fst e2).(y) in
  (s2_x * ((fst e1).(y) - (fst e2).(y)) - s2_y * ((fst e1).(x) - (fst e2).(x)))
    / (- s2_x * s1_y + s1_x * s2_y).

(** The point built in the [then] branch. *)
Definition LineSegmentsIntersection_point (line1 line2 : LineSegment N) : Point N :=
  let e1 := line1 in
  let e2 := line2 in
  let x' :=
    (((snd e1).(x) - (fst e1).(x))
       * ((snd e2).(x) * (fst e2).(y) - (snd e2).(y) * (fst e2).(x))
     - ((snd e2).(x) - (fst e2).(x))
       * ((snd e1).(x) * (fst e1).(y) - (snd e1).(y) * (fst e1).(x)))
    / (((snd e1).(y) - (fst e1).(y)) * ((snd e2).(x) - (fst e2).(x))
       - ((snd e2).(y) - (fst e2).(y)) * ((snd e1).(x) - (fst e1).(x))) in
  let y' :=
    (((snd e2).(y) - (fst e2).(y))
       * ((snd e1).(x) * (fst e1).(y) - (snd e1).(y) * (fst e1).(x))
     - ((snd e1).(y) - (fst e1).(y))
       * ((snd e2).(x) * (fst e2).(y) - (snd e2).(y) * (fst e2).(x)))
    / (((snd e2).(y) - (fst e2).(y)) * ((snd e1).(x) - (fst e1).(x))
       - ((snd e1).(y) - (fst e1).(y)) * ((snd e2).(x) - (fst e2).(x))) in
  {| x := x'; y := y' |}.

(** [Point | null] is [option (Point N)]. *)
Definition LineSegmentsIntersection (line1 line2 : LineSegment N)
    : option (Point N) :=
  let s := LineSegmentsIntersection_s line1 line2 in
  let t := LineSegmentsIntersection_t line1 line2 in
  if (s >=? lit 0) && (s <=? lit 1) && (t >=? lit 0) && (t <=? lit 1)
  then Some (LineSegmentsIntersection_point line1 line2)
  else None.

Definition LineSegmentsOverlapping (line1 line2 : LineSegment N) : bool :=
  let pointA := fst line1 in
  let pointB := snd line1 in
  let pointC := fst line2 in
  let pointD := snd line2 in
  (PointOnLineSegment0 pointC line1 && PointOnLineSegment0 pointB line2) ||
  (PointOnLineSegment0 pointD line1 && PointOnLineSegment0 pointB line2) ||
  (PointOnLineSegment0 pointA line2 && PointOnLineSegment0 pointC line1) ||
  (PointOnLineSegment0 pointA line2 && PointOnLineSegment0 pointD line1) ||
  (PointOnLineSegment0 pointA line2 && PointOnLineSegment0 pointB line2) ||
  (PointOnLineSegment0 pointD line1 && PointOnLineSegment0 pointC line1).

(** The values [CirclesIntersection] computes before it returns. *)
Definition CirclesIntersection_d (circle1 circle2 : Circle N) : N :=
  let dx := circle2.(center).(x) - circle1.(center).(x) in
  let dy := circle2.(center).(y) - circle1.(center).(y) in
  Math_sqrt ((dy * dy) + (dx * dx)).

Definition CirclesIntersection (circle1 circle2 : Circle N)
    : option (list (Point N)) :=
  let x0 := circle1.(center).(x) in
  let y0 := circle1.(center).(y) in
  let r0 := circle1.(radius) in
  let x1 := circle2.(center).(x) in
  let y1 := circle2.(center).(y) in
  let r1 := circle2.(radius) in
  let dx := x1 - x0 in
  let dy := y1 - y0 in
  let d := Math_sqrt ((dy * dy) + (dx * dx)) in
  if d >? (r0 + r1) then None
  else if d <? Math_abs (r0 - r1) then None
  else
    let a := ((r0 * r0) - (r1 * r1) + (d * d)) / (lit 2 * d) in
    let x2 := x0 + (dx * a / d) in
    let y2 := y0 + (dy * a / d) in
    let h := Math_sqrt ((r0 * r0) - (a * a)) in
    let rx := - dy * (h / d) in
    let ry := dx * (h / d) in
    let xi := x2 + rx in
    let xi_prime := x2 - rx in
    let yi := y2 + ry in
    let yi_prime := y2 - ry in
    if (xi =? xi_prime) && (yi =? yi_prime)
    then Some [ {| x := xi; y := yi |} ]
    else Some [ {| x := xi; y := yi |}; {| x := xi_prime; y := yi_prime |} ].

Definition CirclesOverlapping (circle1 circle2 : Circle N) : bool :=
  let p1 := circle1.(center) in
  let p2 := circle2.(center) in
  let dist := Math_sqrt ((p1.(x) - p2.(x)) * (p1.(x) - p2.(x))
                         + (p1.(y) - p2.(y)) * p1.(y) - p2.(y)) in
  let r_sum := circle1.(radius) + circle2.(radius) in
  dist <? r_sum.

(** *** The functions on polygons *)

(** [polygon[i]] for an index inside the array. *)
Definition item (polygon : list (Point N)) (i : nat) : Point N :=
  nth i polygon {| x := lit 0; y := lit 0 |}.

(** The loop [for (let i = 0, j = polygon.length - 1; i < polygon.length;
    j = i++)] carries [inside] and [j]. *)
Definition PointInsidePolygon (point : Point N) (polygon : list (Point N)) : bool :=
  let x0 := point.(x) in
  let y0 := point.(y) in
  let step (st : bool * nat) (i : nat) : bool * nat :=
    let (inside, j) := st in
    let xi := (item polygon i).(x) in
    let yi := (item polygon i).(y) in
    let xj := (item polygon j).(x) in
    let yj := (item polygon j).(y) in
    let intersect :=
      xorb (yi >? y0) (yj >? y0)
      && (x0 <? (xj - xi) * (y0 - yi) / (yj - yi) + xi) in
    ((if intersect then negb inside else inside), i) in
  fst (fold_left step (seq 0 (length polygon)) (false, (length polygon - 1)%nat)).

(** [ret[0] = retP1] and [ret[ret.length] = retP2] on the array [ret];
    [isNaN(d)] is the test of the square root. *)
Definition LineSegmentCircleIntersection (line : LineSegment N) (circle : Circle N)
    : option (list (Point N)) :=
  let v1 := {| x := (snd line).(x) - (fst line).(x);
               y := (snd line).(y) - (fst line).(y) |} in
  let v2 := {| x := (fst line).(x) - circle.(center).(x);
               y := (fst line).(y) - circle.(center).(y) |} in
  let b := (v1.(x) * v2.(x) + v1.(y) * v2.(y)) in
  let c := lit 2 * (v1.(x) * v1.(x) + v1.(y) * v1.(y)) in
  let b := b * lit (-2) in
  let d := Math_sqrt (b * b - lit 2 * c * (v2.(x) * v2.(x) + v2.(y) * v2.(y)
                                           - circle.(radius) * circle.(radius))) in
  if isNaN d then None
  else
    let u1 := (b - d) / c in
    let u2 := (b + d) / c in
    let ret := [] in
    let ret :=
      if (u1 <=? lit 1) && (u1 >=? lit 0)
      then [ {| x := (fst line).(x) + v1.(x) * u1; y := (fst line).(y) + v1.(y) * u1 |} ]
      else ret in
    let ret :=
      if (u2 <=? lit 1) && (u2 >=? lit 0)
      then ret ++ [ {| x := (fst line).(x) + v1.(x) * u2;
                       y := (fst line).(y) + v1.(y) * u2 |} ]
      else ret in
    if Nat.eqb (length ret) 0 then None else Some ret.

Definition _GetPolygonEdges (polygon : list (Point N)) : list (LineSegment N) :=
  fold_left
    (fun returnValues i =>
       let vertexPosition := item polygon i in
       let iNext := (i + 1)%nat in
       let iNext := if Nat.leb (length polygon) iNext then 0%nat else iNext in
       let vertexPositionNext := item polygon iNext in
       let edge := (vertexPosition, vertexPositionNext) in
       returnValues ++ [edge])
    (seq 0 (length polygon)) [].

Definition LineSegmentPolygonIntersection (line : LineSegment N)
    (polygon : list (Point N)) : option (list (Point N)) :=
  let poly_edges := _GetPolygonEdges polygon in
  let toReturn :=
    fold_left
      (fun toReturn i =>
         let edge := nth i poly_edges (item polygon 0, item polygon 0) in
         match LineSegmentsIntersection edge line with
         | Some cross_point => toReturn ++ [cross_point]
         | None => toReturn
         end)
      (seq 0 (length poly_edges)) [] in
  if Nat.eqb (length toReturn) 0 then None else Some toReturn.

Definition PolygonsIntersection (polygon1 polygon2 : list (Point N))
    : option (list (Point N)) :=
  let pe1 := _GetPolygonEdges polygon1 in
  let pe2 := _GetPolygonEdges polygon2 in
  let toReturn :=
    fold_left
      (fun toReturn i =>
         fold_left
           (fun toReturn j =>
              match LineSegmentsIntersection
                      (nth i pe1 (item polygon1 0, item polygon1 0))
                      (nth j pe2 (item polygon2 0, item polygon2 0)) with
              | Some p => toReturn ++ [p]
              | None => toReturn
              end)
           (seq 0 (length pe2)) toReturn)
      (seq 0 (length pe1)) [] in
  if Nat.eqb (length toReturn) 0 then None else Some toReturn.

Definition PolygonsOverlapping (polygon1 polygon2 : list (Point N)) : Completion bool :=
  let in_points := PolygonsIntersection polygon1 polygon2 in
  match in_points with
  | Some _ => Normal true
  | None =>
      match nth_error polygon1 0 with
      | None => ThrowTypeError
      | Some first1 =>
          if PointInsidePolygon first1 polygon2 then Normal true
          else
            match nth_error polygon2 0 with
            | None => ThrowTypeError
            | Some first2 => Normal (PointInsidePolygon first2 polygon1)
            end
      end
  end.

Definition CirclePolygonIntersection (circle : Circle N) (polygon : list (Point N))
    : option (list (Point N)) :=
  let poly_edges := _GetPolygonEdges polygon in
  let toReturn :=
    fold_left
      (fun toReturn i =>
         let edge := nth i poly_edges (item polygon 0, item polygon 0) in
         match LineSegmentCircleIntersection edge circle with
         | Some cross_points => fold_left (fun toReturn point => toReturn ++ [point])
                                          cross_points toReturn
         | None => toReturn
         end)
      (seq 0 (length poly_edges)) [] in
  if Nat.eqb (length toReturn) 0 then None else Some toReturn.

Definition CirclePolygonOverlapping (circle : Circle N) (polygon : list (Point N))
    : Completion bool :=
  let cross_points := CirclePolygonIntersection circle polygon in
  match cross_points with
  | Some _ => Normal true
  | None =>
      match nth_error polygon 0 with
      | None => ThrowTypeError
      | Some first =>
          if PointInsideCircle first circle then Normal true
          else Normal (PointInsidePolygon circle.(center) polygon)
      end
  end.
End Defs.
End Collision2D.

(* ================================================================== *)
(** ** namespace Polygon *)

Module Polygon.
Section Defs.
Context {N : Type} `{Number N}.
Local Open Scope js_scope.

Definition origin : Point N := {| x := lit 0; y := lit 0 |}.

(** [polygon[i]] for an index inside the array (the loops below never
    leave it). *)
Definition item (polygon : list (Point N)) (i : nat) : Point N :=
  nth i polygon origin.

Section Regular.
Context `{MathLib N}.

(** The loop [for (let i = 0; i < 2 * Math.PI; i += (2 * Math.PI) / nSided)]
    with the array built so far; [fuel] bounds the number of tests of
    the loop condition, and [None] means it ran out. *)
Fixpoint CreateRegular_loop (fuel : nat) (nSided radius : N)
    (center : Point N) (i : N) (polygon : list (Point N))
    : option (list (Point N)) :=
  match fuel with
  | O => None
  | S fuel' =>
      if i <? lit 2 * Math_PI then
        let x' := (radius * Math_cos i) + center.(x) in
        let y' := (radius * Math_sin i) + center.(y) in
        CreateRegular_loop fuel' nSided radius center
          (i + (lit 2 * Math_PI) / nSided)
          (polygon ++ [ {| x := x'; y := y' |} ])
      else Some polygon
  end.

(** [let radius = sideLength / (2 * Math.sin(180 / nSided))]. *)
Definition CreateRegular_radius (nSided sideLength : N) : N :=
  sideLength / (lit 2 * Math_sin (lit 180 / nSided)).

Definition CreateRegular (fuel : nat) (nSided sideLength : N)
    (center : option (Point N)) : option (list (Point N)) :=
  let center := match center with None => origin | Some c => c end in
  let radius := CreateRegular_radius nSided sideLength in
  CreateRegular_loop fuel nSided radius center (lit 0) [].
End Regular.

(** [signed?: boolean], [undefined] read as [false]. The initial
    [j = polygon.length - 1] is read only when the loop runs, that is for a
    polygon that is not empty. *)
Definition GetArea (polygon : list (Point N)) (signed : option bool) : N :=
  let signed := match signed with None => false | Some b => b end in
  let step (st : N * nat) (i : nat) : N * nat :=
    let (area, j) := st in
    (area + ((item polygon j).(x) - (item polygon i).(x))
            * ((item polygon j).(y) + (item polygon i).(y)), i) in
  let area :=
    fst (fold_left step (seq 0 (length polygon))
                   (lit 0, (length polygon - 1)%nat)) in
  if signed then area / lit 2 else Math_abs area / lit 2.

Definition GetCenterPoint (polygon : list (Point N)) : Point N :=
  let area := GetArea polygon (Some true) in
  let step (centre : Point N) (i : nat) : Point N :=
    let j := ((i + 1) mod (length polygon))%nat in
    let cross := ((item polygon i).(x) * (item polygon j).(y))
                 - ((item polygon i).(y) * (item polygon j).(x)) in
    let centre1 :=
      {| x := centre.(x) + ((item polygon i).(x) + (item polygon j).(x)) * cross;
         y := centre.(y) |} in
    {| x := centre1.(x);
       y := centre1.(y) + ((item polygon i).(y) + (item polygon j).(y)) * cross |} in
  let centre := fold_left step (seq 0 (length polygon)) origin in
  let centre2 := {| x := centre.(x) / (lit 6 * area); y := centre.(y) |} in
  {| x := centre2.(x); y := centre2.(y) / (lit 6 * area) |}.

(** *** Objects mutated in place

    A [ref] is the identity of a point object, a [store] the fields of
    every object. A polygon passed to a mutator is the list of its
    vertices' identities; two references to one object are one [ref]. *)
Definition ref : Type := nat.
Definition store : Type := ref -> Point N.

Definition set_x (h : store) (r : ref) (v : N) : store :=
  fun r' => if Nat.eqb r' r then {| x := v; y := (h r).(y) |} else h r'.

Definition set_y (h : store) (r : ref) (v : N) : store :=
  fun r' => if Nat.eqb r' r then {| x := (h r).(x); y := v |} else h r'.

(** The array of the vertices' current values. *)
Definition deref (h : store) (polygon : list ref) : list (Point N) :=
  map h polygon.

(** [v.x += vector.x; v.y += vector.y], each read taken from the store as
    it is at that statement. *)
Definition shift (vector : ref) (h : store) (v : ref) : store :=
  let h1 := set_x h v ((h v).(x) + (h vector).(x)) in
  set_y h1 v ((h1 v).(y) + (h1 vector).(y)).

Definition TranslateBy (h : store) (polygon : list ref) (vector : ref) : store :=
  fold_left (shift vector) polygon h.

Definition TranslateTo (h : store) (polygon : list ref) (position : ref) : store :=
  let cp := GetCenterPoint (deref h polygon) in
  let h1 := set_x h position ((h position).(x) - cp.(x)) in
  let h2 := set_y h1 position ((h1 position).(y) - cp.(y)) in
  fold_left (shift position) polygon h2.

(** *** Edges, rotation and scaling *)

(** The edges hold the vertices themselves; here, their values. *)
Definition GetEdges (polygon : list (Point N)) : list (LineSegment N) :=
  let numberOfVertexPositions := length polygon in
  fold_left
    (fun returnValues i =>
       let vertexPosition := item polygon i in
       let iNext := (i + 1)%nat in
       let iNext := if Nat.leb numberOfVertexPositions iNext then 0%nat else iNext in
       let vertexPositionNext := item polygon iNext in
       let edge := (vertexPosition, vertexPositionNext) in
       returnValues ++ [edge])
    (seq 0 numberOfVertexPositions) [].

(** [polygon[i]] as an object, for an index inside the array. *)
Definition item_ref (polygon : list ref) (i : nat) : ref := nth i polygon 0%nat.

Section Rotation.
Context `{MathLib N}.

(** One pass of the loop of [Rotate]; [point.x] and [point.y] are read from
    the store at each statement. *)
Definition rotate_vertex (cos sin : N) (point : ref) (h : store) (vertice : ref) : store :=
  let dx := (h vertice).(x) - (h point).(x) in
  let dy := (h vertice).(y) - (h point).(y) in
  let h1 := set_x h vertice ((h point).(x) + (dx * cos - dy * sin)) in
  set_y h1 vertice ((h1 point).(y) + (dx * sin + dy * cos)).

Definition Rotate (h : store) (polygon : list ref) (angle : N) (point : ref) : store :=
  if angle =? lit 0 then h
  else
    let cos := Math_cos angle in
    let sin := Math_sin angle in
    fold_left (fun h i => rotate_vertex cos sin point h (item_ref polygon i))
              (seq 0 (length polygon)) h.
End Rotation.

(** The pivot of [Scale]: the caller's object, read from the store at each
    statement, or the centroid computed once before the loop. *)
Definition scale_vertex (scaleX scaleY : N) (pivot : store -> Point N)
    (h : store) (vertex : ref) : store :=
  let delta_x := (h vertex).(x) - (pivot h).(x) in
  let delta_y := (h vertex).(y) - (pivot h).(y) in
  let h1 := set_x h vertex ((pivot h).(x) + delta_x * scaleX) in
  set_y h1 vertex ((pivot h1).(y) + delta_y * scaleY).

Definition Scale (h : store) (polygon : list ref) (scaleX scaleY : N)
    (point : option ref) : store :=
  if (scaleX =? lit 1) && (scaleY =? lit 1) then h
  else
    let pivot : store -> Point N :=
      match point with
      | Some r => fun h' => h' r
      | None => let c := GetCenterPoint (deref h polygon) in fun _ => c
      end in
    fold_left (fun h i => scale_vertex scaleX scaleY pivot h (item_ref polygon i))
              (seq 0 (length polygon)) h.
End Defs.
End Polygon.

(* ================================================================== *)
(** ** The extensions of [Math] *)

Module MathExt.
Section Defs.
Context {N : Type} `{Number N}.
Local Open Scope js_scope.

Definition mapLinear (x a1 a2 b1 b2 : N) : N :=
  b1 + (x - a1) * (b2 - b1) / (a2 - a1).

(** [Math.random()] returned [r]. *)
Definition randomFloat (r low high : N) : N :=
  low + r * (high - low).

Section Angles.
Context `{MathLib N}.

Definition radiansToDegrees (radians : N) : N :=
  let RAD2DEG := lit 180 / Math_PI in
  radians * RAD2DEG.

Definition degreesToRadians (degrees : N) : N :=
  let DEG2RAD := Math_PI / lit 180 in
  degrees * DEG2RAD.
End Angles.

Section Order.
Context `{MathOrder N}.

Definition clamp (value min max : N) : N :=
  Math_max min (Math_min max value).
End Order.

Section Floor.
Context `{MathFloor N}.

(** [Math.random()] returned [r]. *)
Definition randomInt (r min max : N) : N :=
  Math_floor (r * (max - min + lit 1)) + min.
End Floor.
End Defs.

(** [ToInt32] of a whole number: the operands of [&] are read modulo 2^32
    into [-2^31, 2^31). *)
Definition ToInt32 (z : Z) : Z :=
  ((z + 2147483648) mod 4294967296 - 2147483648)%Z.

(** [isPowerOfTwo] at a whole number [value] of magnitude at most 2^53, for
    which [value - 1] is computed without rounding. *)
Definition isPowerOfTwo (value : Z) : bool :=
  Z.eqb (Z.land (ToInt32 value) (ToInt32 (value - 1))) 0 && negb (Z.eqb value 0).

(** *** generateUUID *)

Import Ascii String.
Local Open Scope Z_scope.

(** One digit of [toString(16).toUpperCase()]. *)
Definition hex_upper (d : Z) : ascii :=
  match d with
  | 0 => "0" | 1 => "1" | 2 => "2" | 3 => "3" | 4 => "4" | 5 => "5" | 6 => "6" | 7 => "7"
  | 8 => "8" | 9 => "9" | 10 => "A" | 11 => "B" | 12 => "C" | 13 => "D" | 14 => "E"
  | 15 => "F" | _ => "?"
  end%char.

(** [(i).toString(16).toUpperCase()] for a whole number [0 <= i < 256]. *)
Definition toString16_toUpperCase (i : Z) : string :=
  if i <? 16 then String (hex_upper i) EmptyString
  else String (hex_upper (i / 16)) (String (hex_upper (i mod 16)) EmptyString).

(** [lut[i]] once the loop has filled the indices 0 to 255; any other
    index reads [undefined], which [+] turns into that word. *)
Definition lut (i : Z) : string :=
  if (0 <=? i) && (i <? 256)
  then ((if (i <? 16)%Z then "0" else "") ++ toString16_toUpperCase i)%string
  else "undefined"%string.

(** [generateUUID], the four values of [Math.random() * 0xffffffff | 0]
    being the 32-bit integers [d0] to [d3]. *)
Definition generateUUID (d0 d1 d2 d3 : Z) : string :=
  (lut (Z.land d0 255) ++ lut (Z.land (Z.shiftr d0 8) 255)
  ++ lut (Z.land (Z.shiftr d0 16) 255) ++ lut (Z.land (Z.shiftr d0 24) 255) ++ "-"
  ++ lut (Z.land d1 255) ++ lut (Z.land (Z.shiftr d1 8) 255) ++ "-"
  ++ lut (Z.lor (Z.land (Z.shiftr d1 16) 15) 64) ++ lut (Z.land (Z.shiftr d1 24) 255) ++ "-"
  ++ lut (Z.lor (Z.land d2 63) 128) ++ lut (Z.land (Z.shiftr d2 8) 255) ++ "-"
  ++ lut (Z.land (Z.shiftr d2 16) 255) ++ lut (Z.land (Z.shiftr d2 24) 255)
  ++ lut (Z.land d3 255) ++ lut (Z.land (Z.shiftr d3 8) 255)
  ++ lut (Z.land (Z.shiftr d3 16) 255) ++ lut (Z.land (Z.shiftr d3 24) 255))%string.

(** The characters that fix the layout of the result. *)
Definition hyphen : ascii := "-"%char.
Definition version_4 : ascii := "4"%char.
Definition variant_digits : list ascii := ["8"; "9"; "A"; "B"]%char.
End MathExt.

(* ================================================================== *)
(** * Vocabulary of the properties *)

Unset Implicit Arguments.

Section Vocabulary.
Context {N : Type} `{Number N}.
Local Open Scope js_scope.

(** The divisor of [s] and [t] in [LineSegmentsIntersection]. *)
Definition LineSegmentsIntersection_denominator (line1 line2 : LineSegment N) : N :=
  let s1_x := (snd line1).(x) - (fst line1).(x) in
  let s1_y := (snd line1).(y) - (fst line1).(y) in
  let s2_x := (snd line2).(x) - (fst line2).(x) in
  let s2_y := (snd line2).(y) - (fst line2).(y) in
  - s2_x * s1_y + s1_x * s2_y.

(** [0 <= s <= 1], as the [if] of [LineSegmentsIntersection] tests it. *)
Definition in_unit_interval (s : N) : bool := (s >=? lit 0) && (s <=? lit 1).

(** The four tests "this endpoint lies on the other segment". *)
Definition endpoint_tests (line1 line2 : LineSegment N) : list bool :=
  [ Collision2D.PointOnLineSegment0 (fst line1) line2;
    Collision2D.PointOnLineSegment0 (snd line1) line2;
    Collision2D.PointOnLineSegment0 (fst line2) line1;
    Collision2D.PointOnLineSegment0 (snd line2) line1 ].

(** At least one endpoint of either segment lies on the other segment. *)
Definition some_endpoint_on_other (line1 line2 : LineSegment N) : bool :=
  existsb (fun b => b) (endpoint_tests line1 line2).

(** How many of the four endpoints lie on the other segment. *)
Definition endpoints_on_other (line1 line2 : LineSegment N) : nat :=
  List.length (filter (fun b => b) (endpoint_tests line1 line2)).
End Vocabulary.

(** What C1 and C3 ask for, following the spec's words: the Euclidean
    distance ([Vector2.DistanceBetween]) strictly below the radius, and
    strictly below the sum of the radii. *)
Definition euclidean_inside {N : Type} `{Number N} (point : Point N) (c : Circle N) : bool :=
  num_lt (Vector2.DistanceBetween point c.(center)) c.(radius).

Definition euclidean_overlapping {N : Type} `{Number N} (c1 c2 : Circle N) : bool :=
  num_lt (Vector2.DistanceBetween c1.(center) c2.(center))
         (num_add c1.(radius) c2.(radius)).

(** A binary64 value that is [0], [-0] or NaN. *)
Definition zero_or_nan (a : float) : Prop :=
  PrimFloat.eqb a 0%float = true \/ PrimFloat.is_nan a = true.

(** A value of the specification of binary64 that is not below zero: a
    zero, a NaN, or a number with the sign bit clear. *)
Definition not_negative (f : spec_float) : bool :=
  match f with
  | S754_zero _ | S754_nan | S754_infinity false | S754_finite false _ _ => true
  | _ => false
  end.

(** Points, circles and stores written down for the concrete runs. *)
Definition pt (a b : float) : Point float := {| x := a; y := b |}.
Definition circle (r : float) (c : Point float) : Circle float :=
  {| radius := r; center := c |}.

(** The triangle (0,0), (3,0), (0,3) as objects 0, 1, 2 and a separate
    point object (7,7) at every other identity. *)
Definition triangle_store : Polygon.store (N := float) :=
  fun r =>
    match r with
    | 0%nat => pt 0 0
    | 1%nat => pt 3 0
    | 2%nat => pt 0 3
    | _ => pt 7 7
    end.

(** The divisor of [Normalize] and [normalize]: the length, or 1 when the
    length is falsy. *)
Definition Normalize_divisor {N : Type} `{Number N} (v : Point N) : N :=
  js_or (Math_sqrt (num_add (num_mul v.(x) v.(x)) (num_mul v.(y) v.(y)))) (lit 1).

(** Sums of reals, and the sum over the edges of a closed polygon of [F] at
    the two ends of each edge: vertex [i] and vertex [(i + 1) mod n]. *)
Definition Rsum (l : list R) : R := fold_right Rplus 0%R l.

Definition edge_sum (F : Point R -> Point R -> R) (polygon : list (Point R)) : R :=
  Rsum (map (fun i => F (Polygon.item polygon i)
                        (Polygon.item polygon ((i + 1) mod (length polygon))))
            (seq 0 (length polygon))).

(** The summand of [GetArea], and the cross product that sums to twice
    the same area. *)
Definition cross_term (p q : Point R) : R :=
  (p.(x) * q.(y) - p.(y) * q.(x))%R.
Definition area_term (p q : Point R) : R :=
  ((p.(x) - q.(x)) * (p.(y) + q.(y)))%R.

Definition translate (a b : R) (p : Point R) : Point R :=
  {| x := (p.(x) + a)%R; y := (p.(y) + b)%R |}.

(** The triangle and the target of [triangle_store], over the reals. *)
Definition exact_triangle_store : Polygon.store (N := R) :=
  fun r =>
    match r with
    | 0%nat => {| x := 0%R; y := 0%R |}
    | 1%nat => {| x := 3%R; y := 0%R |}
    | 2%nat => {| x := 0%R; y := 3%R |}
    | _ => {| x := 7%R; y := 7%R |}
    end.

(** The number under the square root in [LineSegmentCircleIntersection]. *)
Definition LineSegmentCircleIntersection_discriminant {N : Type} `{Number N}
    (line : LineSegment N) (circle : Circle N) : N :=
  let v1 := {| x := num_sub (snd line).(x) (fst line).(x);
               y := num_sub (snd line).(y) (fst line).(y) |} in
  let v2 := {| x := num_sub (fst line).(x) circle.(center).(x);
               y := num_sub (fst line).(y) circle.(center).(y) |} in
  let b := num_add (num_mul v1.(x) v2.(x)) (num_mul v1.(y) v2.(y)) in
  let c := num_mul (lit 2) (num_add (num_mul v1.(x) v1.(x)) (num_mul v1.(y) v1.(y))) in
  let b := num_mul b (lit (-2)) in
  num_sub (num_mul b b)
          (num_mul (num_mul (lit 2) c)
                   (num_sub (num_add (num_mul v2.(x) v2.(x)) (num_mul v2.(y) v2.(y)))
                            (num_mul circle.(radius) circle.(radius)))).

(** The array a function returns for a list of points found: null when
    there is none. *)
Definition non_empty {A : Type} (l : list A) : option (list A) :=
  match l with
  | [] => None
  | _ => Some l
  end.

(** The points of a result that may be null. *)
Definition points_of {A : Type} (o : option A) : list A :=
  match o with
  | Some p => [p]
  | None => []
  end.

(** The points of an array that may be null. *)
Definition all_points_of {A : Type} (o : option (list A)) : list A :=
  match o with
  | Some l => l
  | None => []
  end.

(** The edges of the closed polygon: each vertex with its successor, the
    last with the first. *)
Definition closed_pairs {A : Type} (polygon : list A) : list (A * A) :=
  combine polygon (tl polygon ++ firstn 1 polygon).

(** The test of one pass of the loop of [PointInsidePolygon], and the
    pass on the state [(inside, j)]. *)
Definition PointInsidePolygon_intersect {N : Type} `{Number N}
    (point : Point N) (polygon : list (Point N)) (i j : nat) : bool :=
  xorb (num_lt point.(y) (Collision2D.item polygon i).(y))
       (num_lt point.(y) (Collision2D.item polygon j).(y))
  && num_lt point.(x)
       (num_add
          (num_div (num_mul (num_sub (Collision2D.item polygon j).(x)
                                     (Collision2D.item polygon i).(x))
                            (num_sub point.(y) (Collision2D.item polygon i).(y)))
                   (num_sub (Collision2D.item polygon j).(y)
                            (Collision2D.item polygon i).(y)))
          (Collision2D.item polygon i).(x)).

Definition PointInsidePolygon_step {N : Type} `{Number N}
    (point : Point N) (polygon : list (Point N)) (st : bool * nat) (i : nat) : bool * nat :=
  ((if PointInsidePolygon_intersect point polygon i (snd st)
    then negb (fst st) else fst st), i).

(** The axis-parallel rectangle, its four corners in order. *)
Definition rectangle {N : Type} (x0 y0 x1 y1 : N) : list (Point N) :=
  [ {| x := x0; y := y0 |}; {| x := x1; y := y0 |};
    {| x := x1; y := y1 |}; {| x := x0; y := y1 |} ].

(** The results of each static operation of [Vector2] and of the instance
    method of the same name, on the same arguments. *)
Definition static_and_instance {N : Type} `{Number N} `{MathLib N}
    (v1 v2 : Point N) (s : N) : list (Point N * Point N) :=
  [ (Vector2.Add v1 v2, Vector2.add v1 v2);
    (Vector2.AddScalar v1 s, Vector2.addScalar v1 s);
    (Vector2.Subtract v1 v2, Vector2.subtract v1 v2);
    (Vector2.SubtractScalar v1 s, Vector2.subtractScalar v1 s);
    (Vector2.Multiply v1 v2, Vector2.multiply v1 v2);
    (Vector2.MultiplyScalar v1 s, Vector2.multiplyScalar v1 s);
    (Vector2.Divide v1 v2, Vector2.divide v1 v2);
    (Vector2.DivideScalar v1 s, Vector2.divideScalar v1 s);
    (Vector2.Normalize v1, Vector2.normalize v1);
    (Vector2.SetLength v1 s, Vector2.setLength v1 s);
    (Vector2.RotateAround v1 v2 s, Vector2.rotateAround v1 v2 s);
    (Vector2.ConvertObject v1, Vector2.copy v2 v1) ].

(** A double that is neither NaN nor the negative zero. *)
Definition plain (a : float) : Prop :=
  PrimFloat.is_nan a = false /\ Prim2SF a <> S754_zero true.

(** The image of [p] under the scaling by [sx] and [sy] that keeps [c], as
    the loop of [Scale] computes it. *)
Definition scale_point {N : Type} `{Number N} (c : Point N) (sx sy : N) (p : Point N)
    : Point N :=
  {| x := num_add c.(x) (num_mul (num_sub p.(x) c.(x)) sx);
     y := num_add c.(y) (num_mul (num_sub p.(y) c.(y)) sy) |}.

(** The real number a finite double stands for (0 for the others). *)
Definition SF2R (f : spec_float) : R :=
  match f with
  | S754_finite s m e => ((if s then - IZR (Zpos m) else IZR (Zpos m)) * powerRZ 2 e)%R
  | _ => 0%R
  end.

Definition F2R (a : float) : R := SF2R (Prim2SF a).

Definition exact_point (p : Point float) : Point R :=
  {| x := F2R p.(x); y := F2R p.(y) |}.

Definition exact_segment (line : LineSegment float) : LineSegment R :=
  (exact_point (fst line), exact_point (snd line)).

(** The direction vector [line[1] - line[0]] as the code computes it. *)
Definition direction {N : Type} `{Number N} (line : LineSegment N) : Point N :=
  {| x := num_sub (snd line).(x) (fst line).(x);
     y := num_sub (snd line).(y) (fst line).(y) |}.

(** Pairs of direction vectors for which the divisor of
    [LineSegmentsIntersection] is computed as zero or NaN whatever the
    rounding: equal, opposite, both horizontal, both vertical. *)
Definition plainly_parallel (d1 d2 : Point float) : Prop :=
  d2 = d1
  \/ d2 = {| x := PrimFloat.opp d1.(x); y := PrimFloat.opp d1.(y) |}
  \/ (PrimFloat.eqb d1.(y) 0%float = true /\ PrimFloat.eqb d2.(y) 0%float = true)
  \/ (PrimFloat.eqb d1.(x) 0%float = true /\ PrimFloat.eqb d2.(x) 0%float = true).

(** No edge of the one polygon has, with an edge of the other, a zero
    divisor in [LineSegmentsIntersection]. *)
Definition no_parallel_edges (polygon1 polygon2 : list (Point R)) : Prop :=
  forall edge1 edge2 : LineSegment R,
    In edge1 (closed_pairs polygon1) -> In edge2 (closed_pairs polygon2) ->
    LineSegmentsIntersection_denominator edge1 edge2 <> 0%R.

(** The triangle (-1,-1), (2,-1), (-1,2), whose centroid is the origin, as
    objects 0, 1, 2 and a separate point object (7,7) at every other
    identity. *)
Definition centred_triangle_store : Polygon.store (N := float) :=
  fun r =>
    match r with
    | 0%nat => pt (-1) (-1)
    | 1%nat => pt 2 (-1)
    | 2%nat => pt (-1) 2
    | _ => pt 7 7
    end.

(** Within [2^-50] of 1. *)
Definition near_one (a : float) : bool :=
  PrimFloat.leb (PrimFloat.abs (PrimFloat.sub a 1%float)) 0x1p-50%float.

(** The vector [(a * 2^k, b * 2^k)]. *)
Definition scaled_vector (a b k : Z) : Point float :=
  pt (Z.ldexp (float_lit a) k) (Z.ldexp (float_lit b) k).

(** Both forms of normalize return a vector whose length, as [Length] and
    [length] compute it, is within [2^-50] of 1. *)
Definition normalize_near_one (v : Point float) : bool :=
  near_one (Vector2.Length (Vector2.Normalize v))
  && near_one (Vector2.length (Vector2.normalize v)).

Definition Z_range (lo : Z) (n : nat) : list Z :=
  map (fun i => (lo + Z.of_nat i)%Z) (seq 0 n).

(** [normalize_near_one] at every vector [(a * 2^k, b * 2^k)] other than
    zero with [|a|, |b| <= size] and [klo <= k < klo + kn]. *)
Definition normalize_grid (size : Z) (klo : Z) (kn : nat) : bool :=
  forallb (fun k =>
    forallb (fun a =>
      forallb (fun b =>
        (Z.eqb a 0 && Z.eqb b 0) || normalize_near_one (scaled_vector a b k))
        (Z_range (- size) (Z.to_nat (2 * size + 1))))
      (Z_range (- size) (Z.to_nat (2 * size + 1))))
    (Z_range klo kn).

(* ================================================================== *)
(** * Properties *)

(* ------------------------------------------------------------------ *)
(** ** Facts of binary64 arithmetic

    Read off the specification of the primitive operations: how NaN
    spreads, what a division by zero gives, and the sign of a sum. *)

Section Binary64.
Local Open Scope float_scope.

Lemma is_nan_spec (a : float) : is_nan a = true <-> Prim2SF a = S754_nan.
Proof.
  unfold is_nan. rewrite FloatAxioms.eqb_spec.
  destruct (Prim2SF a) as [s| s| |s m e]; cbn.
  - split; discriminate.
  - destruct s; cbn; split; discriminate.
  - split; reflexivity.
  - unfold SFeqb, SFcompare. rewrite Z.compare_refl.
    destruct s; rewrite Pos.compare_cont_refl; cbn; split; discriminate.
Qed.

Ltac nan_step spec :=
  intros Hnan; apply is_nan_spec; apply is_nan_spec in Hnan; rewrite spec, Hnan;
  try reflexivity;
  match goal with |- context [Prim2SF ?b] => destruct (Prim2SF b); reflexivity end.

Lemma nan_add_l a b : is_nan a = true -> is_nan (a + b) = true.
Proof. nan_step FloatAxioms.add_spec. Qed.
Lemma nan_add_r a b : is_nan b = true -> is_nan (a + b) = true.
Proof. nan_step FloatAxioms.add_spec. Qed.
Lemma nan_sub_l a b : is_nan a = true -> is_nan (a - b) = true.
Proof. nan_step FloatAxioms.sub_spec. Qed.
Lemma nan_sub_r a b : is_nan b = true -> is_nan (a - b) = true.
Proof. nan_step FloatAxioms.sub_spec. Qed.
Lemma nan_mul_l a b : is_nan a = true -> is_nan (a * b) = true.
Proof. nan_step FloatAxioms.mul_spec. Qed.
Lemma nan_mul_r a b : is_nan b = true -> is_nan (a * b) = true.
Proof. nan_step FloatAxioms.mul_spec. Qed.
Lemma nan_div_l a b : is_nan a = true -> is_nan (a / b) = true.
Proof. nan_step FloatAxioms.div_spec. Qed.
Lemma nan_div_r a b : is_nan b = true -> is_nan (a / b) = true.
Proof. nan_step FloatAxioms.div_spec. Qed.
Lemma nan_sqrt a : is_nan a = true -> is_nan (PrimFloat.sqrt a) = true.
Proof. nan_step FloatAxioms.sqrt_spec. Qed.
Lemma nan_eqb_l a b : is_nan a = true -> (a =? b) = false.
Proof.
  intros Hnan. apply is_nan_spec in Hnan. rewrite FloatAxioms.eqb_spec, Hnan. reflexivity.
Qed.

Lemma zero_or_nan_spec a :
  zero_or_nan a <-> (exists s, Prim2SF a = S754_zero s) \/ Prim2SF a = S754_nan.
Proof.
  unfold zero_or_nan. rewrite is_nan_spec, FloatAxioms.eqb_spec.
  change (Prim2SF 0) with (S754_zero false).
  destruct (Prim2SF a) as [s| s| |s m e]; cbn.
  - split; intros _; left; eauto.
  - split; intros [Hc|Hc]; try discriminate; destruct s; try discriminate;
      destruct Hc; discriminate.
  - split; intros _; right; reflexivity.
  - split; intros [Hc|Hc]; try discriminate; destruct s; try discriminate;
      destruct Hc; discriminate.
Qed.

Lemma finite_sub_self a : is_finite a = true -> a - a = 0.
Proof.
  unfold is_finite, is_infinity. intros Hfin.
  apply negb_true_iff, orb_false_iff in Hfin. destruct Hfin as [Hnan Hinf].
  assert (Hnn : Prim2SF a <> S754_nan).
  { intros Hc. apply is_nan_spec in Hc. congruence. }
  rewrite FloatAxioms.eqb_spec, FloatAxioms.abs_spec in Hinf.
  change (Prim2SF infinity) with (S754_infinity false) in Hinf.
  apply Prim2SF_inj. rewrite FloatAxioms.sub_spec.
  change (Prim2SF 0) with (S754_zero false).
  destruct (Prim2SF a) as [s| s| |s m e].
  - destruct s; reflexivity.
  - discriminate.
  - congruence.
  - unfold SF64sub, SFsub. rewrite Z.sub_diag. reflexivity.
Qed.

Lemma sub_self_zero_or_nan a : zero_or_nan (a - a).
Proof.
  apply zero_or_nan_spec. rewrite FloatAxioms.sub_spec.
  destruct (Prim2SF a) as [s| s| |s m e].
  - left. destruct s; cbn; eauto.
  - right. destruct s; reflexivity.
  - right. reflexivity.
  - left. unfold SF64sub, SFsub. rewrite Z.sub_diag. cbn. eauto.
Qed.

Lemma zero_or_nan_add_zero a : zero_or_nan a -> zero_or_nan (a + 0).
Proof.
  intros Ha. apply zero_or_nan_spec in Ha. apply zero_or_nan_spec.
  rewrite FloatAxioms.add_spec. change (Prim2SF 0) with (S754_zero false).
  destruct Ha as [[s Ha]|Ha]; rewrite Ha.
  - left. destruct s; cbn; eauto.
  - right. reflexivity.
Qed.

Lemma zero_or_nan_div_zero a : zero_or_nan a -> is_nan (a / 0) = true.
Proof.
  intros Ha. apply zero_or_nan_spec in Ha. apply is_nan_spec.
  rewrite FloatAxioms.div_spec. change (Prim2SF 0) with (S754_zero false).
  destruct Ha as [[s Ha]|Ha]; rewrite Ha; reflexivity.
Qed.

Lemma zero_or_nan_abs_not_above a : zero_or_nan a -> (0 <? abs a) = false.
Proof.
  intros Ha. apply zero_or_nan_spec in Ha.
  rewrite FloatAxioms.ltb_spec, FloatAxioms.abs_spec. change (Prim2SF 0) with (S754_zero false).
  destruct Ha as [[s Ha]|Ha]; rewrite Ha; reflexivity.
Qed.

Lemma binary_round_aux_not_negative m e l :
  not_negative (binary_round_aux prec emax false m e l) = true.
Proof.
  unfold binary_round_aux.
  destruct (shr_fexp prec emax m e l) as [mrs' e'].
  destruct (shr_fexp prec emax _ e' loc_Exact) as [mrs'' e''].
  destruct (shr_m mrs''); try reflexivity.
  destruct (Z.leb e'' (Z.sub emax prec)); reflexivity.
Qed.

Lemma not_negative_not_below_zero f :
  not_negative f = true -> SFltb f (S754_zero false) = false.
Proof. destruct f as [s| s| |s m e]; try destruct s; cbn; congruence. Qed.

Lemma nonneg_add_self_not_below a : (0 <=? a) = true -> (a + a <? 0) = false.
Proof.
  rewrite FloatAxioms.leb_spec, FloatAxioms.ltb_spec, FloatAxioms.add_spec.
  change (Prim2SF 0) with (S754_zero false).
  intros Hle. apply not_negative_not_below_zero.
  destruct (Prim2SF a) as [s| s| |s m e].
  - destruct s; reflexivity.
  - destruct s; [discriminate|reflexivity].
  - discriminate.
  - destruct s; [discriminate|].
    unfold SF64add, SFadd, binary_normalize. cbn [cond_Zopp Z.add].
    unfold binary_round.
    destruct (shl_align _ _ _) as [mz ez].
    apply binary_round_aux_not_negative.
Qed.
End Binary64.

(* ------------------------------------------------------------------ *)
(** ** PointInsideCircle and CirclesOverlapping: the distance term *)

Section SquaredTerm.
Local Open Scope float_scope.

(** C1. [PointInsideCircle] does not decide "the distance to the centre is
    strictly less than the radius". The point (0,10) is at distance 5 from
    the centre (0,5) of a circle of radius 6, so it is inside, and the
    function answers [false]; the centre (0,1) of a circle of radius 1 is at
    distance 0 from itself and the answer is [false] as well (the square
    root of a negative number is NaN); and (0,1) is at distance 101 from the
    centre (0,-100) of a circle of radius 50 and the answer is [true]. *)
Theorem PointInsideCircle_not_euclidean :
  (Collision2D.PointInsideCircle (pt 0 10) (circle 6 (pt 0 5)) = false
   /\ Vector2.DistanceBetween (pt 0 10) (pt 0 5) = 5
   /\ euclidean_inside (pt 0 10) (circle 6 (pt 0 5)) = true)
  /\ (Collision2D.PointInsideCircle (pt 0 1) (circle 1 (pt 0 1)) = false
      /\ Vector2.DistanceBetween (pt 0 1) (pt 0 1) = 0
      /\ euclidean_inside (pt 0 1) (circle 1 (pt 0 1)) = true)
  /\ (Collision2D.PointInsideCircle (pt 0 1) (circle 50 (pt 0 (-100))) = true
      /\ Vector2.DistanceBetween (pt 0 1) (pt 0 (-100)) = 101
      /\ euclidean_inside (pt 0 1) (circle 50 (pt 0 (-100))) = false).
Proof. repeat split; vm_compute; reflexivity. Qed.

(** C3. [CirclesOverlapping] does not decide "the distance between the
    centres is strictly less than the sum of the radii". Two circles of
    radius 3 centred at (0,10) and (0,5) are 5 apart, less than 6, and the
    answer is [false]; a circle of radius 1 centred at (0,1) does not
    overlap itself; circles of radius 10 centred at (0,1) and (0,-100), 101
    apart, are reported overlapping. *)
Theorem CirclesOverlapping_not_euclidean :
  (Collision2D.CirclesOverlapping (circle 3 (pt 0 10)) (circle 3 (pt 0 5)) = false
   /\ Vector2.DistanceBetween (pt 0 10) (pt 0 5) = 5
   /\ euclidean_overlapping (circle 3 (pt 0 10)) (circle 3 (pt 0 5)) = true)
  /\ (Collision2D.CirclesOverlapping (circle 1 (pt 0 1)) (circle 1 (pt 0 1)) = false
      /\ Vector2.DistanceBetween (pt 0 1) (pt 0 1) = 0
      /\ euclidean_overlapping (circle 1 (pt 0 1)) (circle 1 (pt 0 1)) = true)
  /\ (Collision2D.CirclesOverlapping (circle 10 (pt 0 1)) (circle 10 (pt 0 (-100))) = true
      /\ Vector2.DistanceBetween (pt 0 1) (pt 0 (-100)) = 101
      /\ euclidean_overlapping (circle 10 (pt 0 1)) (circle 10 (pt 0 (-100))) = false).
Proof. repeat split; vm_compute; reflexivity. Qed.
End SquaredTerm.

(* ------------------------------------------------------------------ *)
(** ** CreateRegular *)

Section RegularFuel.
Context {N : Type} `{Number N} `{MathLib N}.

(** More fuel does not change a loop that has returned. *)
Lemma CreateRegular_loop_more_fuel :
  forall (fuel k : nat) (nSided radius : N) (center : Point N) (i : N)
         (polygon result : list (Point N)),
    Polygon.CreateRegular_loop fuel nSided radius center i polygon = Some result ->
    Polygon.CreateRegular_loop (fuel + k) nSided radius center i polygon = Some result.
Proof.
  induction fuel as [|fuel IH]; intros k nSided r c i polygon result Hrun.
  - discriminate.
  - cbn in *. destruct (num_lt i (num_mul (lit 2) Math_PI)).
    + apply IH. exact Hrun.
    + exact Hrun.
Qed.
End RegularFuel.

(** In exact arithmetic the angle [180 / 180] is one radian, which is not
    the angle [PI / 180] of the circumradius formula. *)
Lemma sin_one_radian_not_one_degree : (sin (PI / 180) < sin 1)%R.
Proof.
  pose proof PI_RGT_0 as Hpos. pose proof PI_4 as H4. pose proof PI2_1 as H21.
  apply sin_increasing_1; lra.
Qed.

(** C2. [CreateRegular] does not return the regular polygon of the claim.
    In binary64 the loop variable, after six additions of [2 * Math.PI / 6],
    is still below [2 * Math.PI], so a hexagon comes back with seven
    vertices, whatever the side length, the centre and the engine's sine and
    cosine are. And the radius is [sideLength / (2 * sin (180 / nSided))],
    the angle [180 / nSided] read in radians: already in exact arithmetic it
    differs from [sideLength / (2 * sin (PI / nSided))], here for 180 sides
    of length 1. *)
Theorem CreateRegular_not_regular :
  (forall (sin cos : float -> float) (sideLength : float)
          (center : option (Point float)) (k : nat),
      option_map (@List.length (Point float))
        (Polygon.CreateRegular (H0 := IEEE_Math sin cos) (8 + k) 6%float sideLength center)
      = Some 7%nat)
  /\ (Polygon.CreateRegular_radius (N := R) 180%R 1%R <> 1 / (2 * sin (PI / 180)))%R.
Proof.
  split.
  - intros sin cos sideLength center k.
    unfold Polygon.CreateRegular.
    destruct (Polygon.CreateRegular_loop (H0 := IEEE_Math sin cos) 8 6%float
                (Polygon.CreateRegular_radius (H0 := IEEE_Math sin cos) 6%float sideLength)
                (match center with None => Polygon.origin | Some c => c end)
                (lit 0) []) as [result|] eqn:Hrun.
    + rewrite (CreateRegular_loop_more_fuel (H0 := IEEE_Math sin cos) 8 k _ _ _ _ _ _ Hrun).
      apply (f_equal (option_map (@List.length (Point float)))) in Hrun.
      rewrite <- Hrun. vm_compute. reflexivity.
    + exfalso. apply (f_equal (option_map (@List.length (Point float)))) in Hrun.
      vm_compute in Hrun. discriminate.
  - unfold Polygon.CreateRegular_radius. cbn.
    pose proof sin_one_radian_not_one_degree as Hlt.
    assert (Hdeg : (0 < sin (PI / 180))%R).
    { pose proof PI_RGT_0. apply sin_gt_0; lra. }
    replace (180 / 180)%R with 1%R by field.
    intros Heq.
    assert (Hsin : (sin 1 = sin (PI / 180))%R).
    { assert (H1 : (0 < sin 1)%R) by lra.
      apply (f_equal Rinv) in Heq.
      unfold Rdiv in Heq. rewrite !Rmult_1_l, !Rinv_inv in Heq. lra. }
    lra.
Qed.

(* ------------------------------------------------------------------ *)
(** ** LineSegmentsOverlapping *)

Section Overlapping.
Context {N : Type} `{Number N}.

(** C4, as the code has it. [LineSegmentsOverlapping] is the disjunction of
    the six pairs of two different endpoints, each lying on the other
    segment: it is [true] exactly when at least two of the four endpoints
    lie on the other segment (each decided by [PointOnLineSegment] with
    threshold 0), and then in particular some endpoint does. *)
Theorem LineSegmentsOverlapping_two_endpoints :
  forall line1 line2 : LineSegment N,
    (Collision2D.LineSegmentsOverlapping line1 line2 = true
     <-> (2 <= endpoints_on_other line1 line2)%nat)
    /\ (Collision2D.LineSegmentsOverlapping line1 line2 = true
        -> some_endpoint_on_other line1 line2 = true).
Proof.
  intros line1 line2.
  unfold Collision2D.LineSegmentsOverlapping, endpoints_on_other,
    some_endpoint_on_other, endpoint_tests.
  destruct (Collision2D.PointOnLineSegment0 (fst line1) line2),
           (Collision2D.PointOnLineSegment0 (snd line1) line2),
           (Collision2D.PointOnLineSegment0 (fst line2) line1),
           (Collision2D.PointOnLineSegment0 (snd line2) line1);
    cbn; repeat split; intros; try reflexivity; try discriminate; try lia.
Qed.
End Overlapping.

(** C4 as stated fails: the segment from (1,0) to (1,1) starts on the
    segment from (0,0) to (2,0), so an endpoint of one lies on the other,
    and [LineSegmentsOverlapping] answers [false]. *)
Lemma LineSegmentsOverlapping_one_endpoint_is_not_enough :
  ~ (forall line1 line2 : LineSegment float,
        Collision2D.LineSegmentsOverlapping line1 line2 = true
        <-> some_endpoint_on_other line1 line2 = true).
Proof.
  intros Hclaim.
  pose proof (proj2 (Hclaim (pt 0 0, pt 2 0) (pt 1 0, pt 1 1))) as Hback.
  assert (Hsome : some_endpoint_on_other (pt 0 0, pt 2 0) (pt 1 0, pt 1 1) = true)
    by (vm_compute; reflexivity).
  specialize (Hback Hsome). vm_compute in Hback. discriminate.
Qed.

(* ------------------------------------------------------------------ *)
(** ** LineSegmentsIntersection *)

Section Intersection.
Local Open Scope float_scope.

(** A quotient by zero is an infinity or NaN, never in [[0,1]]. *)
Lemma div_by_zero_not_in_unit_interval (a b : float) :
  (b =? 0) = true -> in_unit_interval (N := float) (a / b) = false.
Proof.
  intros Hb. unfold in_unit_interval. cbn.
  assert (Hzero : exists s, Prim2SF b = S754_zero s).
  { rewrite FloatAxioms.eqb_spec in Hb. change (Prim2SF 0) with (S754_zero false) in Hb.
    destruct (Prim2SF b) as [s| s| |s m e]; cbn in Hb;
      try destruct s; try discriminate; eauto. }
  destruct Hzero as [sb Eb].
  rewrite !FloatAxioms.leb_spec, FloatAxioms.div_spec, Eb.
  change (Prim2SF 0) with (S754_zero false).
  change (Prim2SF 1) with (S754_finite false 4503599627370496 (-52)).
  unfold SF64div, SFdiv.
  destruct (Prim2SF a) as [s| s| |s m e]; try reflexivity;
    destruct s, sb; reflexivity.
Qed.

Lemma binary_round_aux_opp (s : bool) (m e : Z) (l : location) :
  binary_round_aux prec emax (negb s) m e l = SFopp (binary_round_aux prec emax s m e l).
Proof.
  unfold binary_round_aux.
  destruct (shr_fexp prec emax m e l) as [mrs' e'].
  destruct (shr_fexp prec emax _ e' loc_Exact) as [mrs'' e''].
  destruct (shr_m mrs''); try reflexivity.
  destruct (Z.leb e'' (Z.sub emax prec)); reflexivity.
Qed.

Lemma SFmul_opp_l (a b : spec_float) :
  SFmul prec emax (SFopp a) b = SFopp (SFmul prec emax a b).
Proof.
  destruct a as [sa| sa| |sa ma ea], b as [sb| sb| |sb mb eb]; cbn [SFopp SFmul];
    try reflexivity;
    try (destruct sa, sb; reflexivity).
  rewrite <- binary_round_aux_opp. destruct sa, sb; reflexivity.
Qed.

Lemma mul_opp_l (a b : float) : (- a) * b = - (a * b).
Proof.
  apply Prim2SF_inj.
  rewrite FloatAxioms.mul_spec, !FloatAxioms.opp_spec, FloatAxioms.mul_spec.
  apply SFmul_opp_l.
Qed.

Lemma SFmul_comm (a b : spec_float) : SFmul prec emax a b = SFmul prec emax b a.
Proof.
  destruct a as [sa| sa| |sa ma ea], b as [sb| sb| |sb mb eb]; cbn [SFmul];
    try reflexivity; try (destruct sa, sb; reflexivity).
  rewrite Pos.mul_comm, Z.add_comm, xorb_comm. reflexivity.
Qed.

Lemma mul_comm (a b : float) : a * b = b * a.
Proof.
  apply Prim2SF_inj. rewrite !FloatAxioms.mul_spec. apply SFmul_comm.
Qed.

Lemma opp_involutive (a : float) : - - a = a.
Proof.
  apply Prim2SF_inj. rewrite !FloatAxioms.opp_spec.
  destruct (Prim2SF a) as [s| s| |s m e]; cbn; rewrite ?negb_involutive; reflexivity.
Qed.

Lemma opp_add_self_zero_or_nan (p : float) : zero_or_nan (- p + p).
Proof.
  apply zero_or_nan_spec. rewrite FloatAxioms.add_spec, FloatAxioms.opp_spec.
  destruct (Prim2SF p) as [s| s| |s m e].
  - left. destruct s; cbn; eauto.
  - right. destruct s; reflexivity.
  - right. reflexivity.
  - left. unfold SF64add, SFadd, SFopp. 
    replace (Z.add (cond_Zopp (negb s) (Zpos (fst (shl_align m e (Z.min e e)))))
                   (cond_Zopp s (Zpos (fst (shl_align m e (Z.min e e))))))
      with 0%Z by (destruct s; cbn [negb cond_Zopp]; lia).
    cbn. eauto.
Qed.

Lemma add_opp_self_zero_or_nan (p : float) : zero_or_nan (p + - p).
Proof.
  apply zero_or_nan_spec. rewrite FloatAxioms.add_spec, FloatAxioms.opp_spec.
  destruct (Prim2SF p) as [s| s| |s m e].
  - left. destruct s; cbn; eauto.
  - right. destruct s; reflexivity.
  - right. reflexivity.
  - left. unfold SF64add, SFadd, SFopp. 
    replace (Z.add (cond_Zopp s (Zpos (fst (shl_align m e (Z.min e e)))))
                   (cond_Zopp (negb s) (Zpos (fst (shl_align m e (Z.min e e))))))
      with 0%Z by (destruct s; cbn [negb cond_Zopp]; lia).
    cbn. eauto.
Qed.

Lemma eqb_zero_spec (a : float) : (a =? 0) = true <-> exists s, Prim2SF a = S754_zero s.
Proof.
  rewrite FloatAxioms.eqb_spec. change (Prim2SF 0) with (S754_zero false). split.
  - intros H. destruct (Prim2SF a) as [s| [|]| |[|] m e]; cbn in H;
      try discriminate; eauto.
  - intros [s ->]. destruct s; reflexivity.
Qed.

Lemma zero_or_nan_mul_zero_r (a b : float) : (b =? 0) = true -> zero_or_nan (a * b).
Proof.
  intros Hb. apply eqb_zero_spec in Hb. destruct Hb as [sb Hb].
  apply zero_or_nan_spec. rewrite FloatAxioms.mul_spec, Hb.
  destruct (Prim2SF a) as [s| s| |s m e]; cbn; eauto.
Qed.

Lemma zero_or_nan_mul_zero_l (a b : float) : (a =? 0) = true -> zero_or_nan (a * b).
Proof. intros Ha. rewrite mul_comm. apply zero_or_nan_mul_zero_r, Ha. Qed.

Lemma zero_or_nan_add (a b : float) : zero_or_nan a -> zero_or_nan b -> zero_or_nan (a + b).
Proof.
  intros Ha Hb. apply zero_or_nan_spec in Ha, Hb. apply zero_or_nan_spec.
  rewrite FloatAxioms.add_spec.
  destruct Ha as [[sa Ha]|Ha], Hb as [[sb Hb]|Hb]; rewrite Ha, Hb.
  - left. destruct sa, sb; cbn; eauto.
  - right. reflexivity.
  - right. reflexivity.
  - right. reflexivity.
Qed.

Lemma opp_eqb_zero (a : float) : (a =? 0) = true -> (- a =? 0) = true.
Proof.
  rewrite !eqb_zero_spec. intros [s Hs]. rewrite FloatAxioms.opp_spec, Hs. cbn. eauto.
Qed.

(** The divisor when the direction vectors are plainly parallel. *)
Lemma plainly_parallel_denominator (line1 line2 : LineSegment float) :
  plainly_parallel (direction line1) (direction line2) ->
  zero_or_nan (LineSegmentsIntersection_denominator line1 line2).
Proof.
  unfold plainly_parallel, direction, LineSegmentsIntersection_denominator.
  cbn [x y num_sub num_add num_mul num_neg IEEE].
  set (s1_x := (snd line1).(x) - (fst line1).(x)).
  set (s1_y := (snd line1).(y) - (fst line1).(y)).
  set (s2_x := (snd line2).(x) - (fst line2).(x)).
  set (s2_y := (snd line2).(y) - (fst line2).(y)).
  intros [Hsame | [Hopp | [[H1 H2] | [H1 H2]]]].
  - injection Hsame as -> ->. rewrite mul_opp_l. apply opp_add_self_zero_or_nan.
  - injection Hopp as -> ->. rewrite opp_involutive.
    rewrite (mul_comm s1_x (- s1_y)), mul_opp_l, (mul_comm s1_y s1_x).
    apply add_opp_self_zero_or_nan.
  - apply zero_or_nan_add.
    + apply zero_or_nan_mul_zero_r, H1.
    + apply zero_or_nan_mul_zero_r, H2.
  - apply zero_or_nan_add.
    + apply zero_or_nan_mul_zero_l, opp_eqb_zero, H2.
    + apply zero_or_nan_mul_zero_l, H1.
Qed.

Lemma nan_not_in_unit_interval (a : float) :
  is_nan a = true -> in_unit_interval (N := float) a = false.
Proof.
  intros Ha. apply is_nan_spec in Ha. unfold in_unit_interval. cbn.
  rewrite !FloatAxioms.leb_spec, Ha. reflexivity.
Qed.

Lemma zero_or_nan_divisor_not_in_unit_interval (a b : float) :
  zero_or_nan b -> in_unit_interval (N := float) (a / b) = false.
Proof.
  intros [Hz | Hn].
  - apply div_by_zero_not_in_unit_interval, Hz.
  - apply nan_not_in_unit_interval, nan_div_r, Hn.
Qed.
End Intersection.

Section IntersectionCases.

(** The [if] of [LineSegmentsIntersection], for every kind of number. *)
Lemma LineSegmentsIntersection_if {N : Type} `{Number N} (line1 line2 : LineSegment N) :
  Collision2D.LineSegmentsIntersection line1 line2
  = if in_unit_interval (Collision2D.LineSegmentsIntersection_s line1 line2)
       && in_unit_interval (Collision2D.LineSegmentsIntersection_t line1 line2)
    then Some (Collision2D.LineSegmentsIntersection_point line1 line2)
    else None.
Proof.
  unfold Collision2D.LineSegmentsIntersection, in_unit_interval.
  rewrite <- !andb_assoc. reflexivity.
Qed.

Lemma LineSegmentsIntersection_zero_divisor (line1 line2 : LineSegment float) :
  zero_or_nan (LineSegmentsIntersection_denominator line1 line2) ->
  Collision2D.LineSegmentsIntersection line1 line2 = None.
Proof.
  intros Hden. rewrite LineSegmentsIntersection_if.
  assert (Hs : in_unit_interval (Collision2D.LineSegmentsIntersection_s line1 line2) = false).
  { apply (zero_or_nan_divisor_not_in_unit_interval _ _ Hden). }
  rewrite Hs. reflexivity.
Qed.

Local Open Scope R_scope.

(** In exact arithmetic with a divisor that is not zero, [s] and [t] are the
    one solution of [line1[0] + t * d1 = line2[0] + s * d2], and the point
    built is that common point. *)
Lemma LineSegmentsIntersection_solves_exact (line1 line2 : LineSegment R) :
  LineSegmentsIntersection_denominator line1 line2 <> 0 ->
  let s := Collision2D.LineSegmentsIntersection_s line1 line2 in
  let t := Collision2D.LineSegmentsIntersection_t line1 line2 in
  (forall s' t' : R,
      ((fst line1).(x) + t' * (direction line1).(x)
       = (fst line2).(x) + s' * (direction line2).(x)
       /\ (fst line1).(y) + t' * (direction line1).(y)
          = (fst line2).(y) + s' * (direction line2).(y))
      <-> (s' = s /\ t' = t))
  /\ Collision2D.LineSegmentsIntersection_point line1 line2
     = {| x := (fst line1).(x) + t * (direction line1).(x);
          y := (fst line1).(y) + t * (direction line1).(y) |}.
Proof.
  destruct line1 as [[ax ay] [bx by_]], line2 as [[cx cy] [ex ey]].
  unfold LineSegmentsIntersection_denominator, direction,
    Collision2D.LineSegmentsIntersection_s, Collision2D.LineSegmentsIntersection_t,
    Collision2D.LineSegmentsIntersection_point.
  cbn [fst snd x y num_add num_sub num_mul num_div num_neg Exact].
  intros Hden. cbv zeta.
  set (den := - (ex - cx) * (by_ - ay) + (bx - ax) * (ey - cy)) in *.
  split.
  - intros s' t'. split.
    + intros [E1 E2].
      assert (Ht : t' * den = (ex - cx) * (ay - cy) - (ey - cy) * (ax - cx)).
      { transitivity (((ax + t' * (bx - ax)) - ax) * (ey - cy)
                      - ((ay + t' * (by_ - ay)) - ay) * (ex - cx)); [unfold den; ring|].
        rewrite E1, E2. ring. }
      assert (Hs : s' * den = - (by_ - ay) * (ax - cx) + (bx - ax) * (ay - cy)).
      { transitivity (((cx + s' * (ex - cx)) - cx) * (- (by_ - ay))
                      + ((cy + s' * (ey - cy)) - cy) * (bx - ax)); [unfold den; ring|].
        rewrite <- E1, <- E2. ring. }
      split.
      * apply (Rmult_eq_reg_r den); [|exact Hden]. rewrite Hs. field. exact Hden.
      * apply (Rmult_eq_reg_r den); [|exact Hden]. rewrite Ht. field. exact Hden.
    + intros [-> ->]. unfold den in *. split; field; exact Hden.
  - f_equal; unfold den in *; field; lra.
Qed.
End IntersectionCases.

(** C5, as the code has it. For every kind of number
    [LineSegmentsIntersection] returns the point it computes exactly when
    the computed [s] and [t] both pass [0 <= . <= 1], and null otherwise. In
    binary64 it returns null whenever the computed divisor is zero or NaN,
    which is the case for direction vectors that are equal, opposite, both
    horizontal or both vertical. Read in exact arithmetic with a divisor
    that is not zero, [s] and [t] are the one solution of
    [line1[0] + t * d1 = line2[0] + s * d2] and the point returned is that
    common point. The parallel segments [(0,0),(1,0)] and [(0,1),(1,1)] and
    the collinear overlapping segments [(0,0),(2,0)] and [(1,0),(3,0)] give
    null; [(0,0),(2,2)] and [(0,2),(2,0)] give (1,1); segments that touch at
    an endpoint, [(0,0),(1,0)] and [(1,0),(1,1)], give that endpoint. *)
Theorem LineSegmentsIntersection_cases :
  (forall (N : Type) (num : Number N) (line1 line2 : LineSegment N),
      Collision2D.LineSegmentsIntersection line1 line2
      = if in_unit_interval (Collision2D.LineSegmentsIntersection_s line1 line2)
           && in_unit_interval (Collision2D.LineSegmentsIntersection_t line1 line2)
        then Some (Collision2D.LineSegmentsIntersection_point line1 line2)
        else None)
  /\ (forall line1 line2 : LineSegment float,
        zero_or_nan (LineSegmentsIntersection_denominator line1 line2)
        \/ plainly_parallel (direction line1) (direction line2) ->
        Collision2D.LineSegmentsIntersection line1 line2 = None)
  /\ (forall line1 line2 : LineSegment R,
        LineSegmentsIntersection_denominator line1 line2 <> 0%R ->
        let s := Collision2D.LineSegmentsIntersection_s line1 line2 in
        let t := Collision2D.LineSegmentsIntersection_t line1 line2 in
        (forall s' t' : R,
            ((fst line1).(x) + t' * (direction line1).(x)
             = (fst line2).(x) + s' * (direction line2).(x)
             /\ (fst line1).(y) + t' * (direction line1).(y)
                = (fst line2).(y) + s' * (direction line2).(y))%R
            <-> (s' = s /\ t' = t))
        /\ Collision2D.LineSegmentsIntersection_point line1 line2
           = {| x := ((fst line1).(x) + t * (direction line1).(x))%R;
                y := ((fst line1).(y) + t * (direction line1).(y))%R |})
  /\ Collision2D.LineSegmentsIntersection (pt 0 0, pt 1 0) (pt 0 1, pt 1 1) = None
  /\ Collision2D.LineSegmentsIntersection (pt 0 0, pt 2 0) (pt 1 0, pt 3 0) = None
  /\ Collision2D.LineSegmentsIntersection (pt 0 0, pt 2 2) (pt 0 2, pt 2 0)
     = Some (pt 1 1)
  /\ Collision2D.LineSegmentsIntersection (pt 0 0, pt 1 0) (pt 1 0, pt 1 1)
     = Some (pt 1 0).
Proof.
  split; [|split; [|split; [|repeat split; vm_compute; reflexivity]]].
  - intros N num line1 line2. apply LineSegmentsIntersection_if.
  - intros line1 line2 [Hden | Hpar].
    + apply LineSegmentsIntersection_zero_divisor, Hden.
    + apply LineSegmentsIntersection_zero_divisor, plainly_parallel_denominator, Hpar.
  - exact LineSegmentsIntersection_solves_exact.
Qed.

(** The theorem at the parallel segments of the specification, both
    horizontal, and at the diagonals of the square, whose point is (1,1). *)
Lemma LineSegmentsIntersection_cases_witness :
  Collision2D.LineSegmentsIntersection (pt 0 0, pt 1 0) (pt 0 1, pt 1 1) = None
  /\ Collision2D.LineSegmentsIntersection_point
       ({| x := 0%R; y := 0%R |}, {| x := 2%R; y := 2%R |})
       ({| x := 0%R; y := 2%R |}, {| x := 2%R; y := 0%R |})
     = {| x := 1%R; y := 1%R |}.
Proof.
  split.
  - apply (proj1 (proj2 LineSegmentsIntersection_cases) (pt 0 0, pt 1 0) (pt 0 1, pt 1 1)).
    right. right. right. left. split; reflexivity.
  - destruct (proj1 (proj2 (proj2 LineSegmentsIntersection_cases))
                ({| x := 0%R; y := 0%R |}, {| x := 2%R; y := 2%R |})
                ({| x := 0%R; y := 2%R |}, {| x := 2%R; y := 0%R |})) as [_ Hpoint].
    + unfold LineSegmentsIntersection_denominator. cbn. lra.
    + rewrite Hpoint.
      unfold Collision2D.LineSegmentsIntersection_t, direction. cbn.
      f_equal; field.
Defined.

(** A double with a negative exponent, as a quotient of whole numbers. *)
Lemma F2R_negative_exponent (a : float) (s : bool) (m p : positive) (d : Z) :
  Prim2SF a = S754_finite s m (Zneg p) ->
  Z.pow_pos 2 p = d ->
  F2R a = ((if s then - IZR (Zpos m) else IZR (Zpos m)) / IZR d)%R.
Proof.
  intros E <-. unfold F2R. rewrite E. cbn [SF2R powerRZ]. unfold Rdiv. f_equal. f_equal.
  rewrite Z.pow_pos_fold, <- (positive_nat_Z p), <- pow_IZR. reflexivity.
Qed.

Ltac F2R_eval a :=
  let sf := eval vm_compute in (Prim2SF a) in
  match sf with
  | S754_finite ?s ?m (Zneg ?p) =>
      let d := eval vm_compute in (Z.pow_pos 2 p) in
      rewrite (F2R_negative_exponent a s m p d) by (vm_compute; reflexivity)
  end.

(** C5 as stated fails in binary64. The doubles written 2.56, 0.256, 0.17,
    0.017, 2.62, 0.262, 0.6 and 0.06 give two segments on one line (both
    exact divisors are zero: the segments are parallel, and the first is
    parallel to the segment joining their first ends), and the code
    computes a divisor that is not zero and returns a point. For the
    diagonals of the square of side 2 at (1e10,1e10), which cross at
    (10000000001,10000000001), the point returned is 1024 below the
    square. *)
Lemma LineSegmentsIntersection_collinear_not_null :
  ~ (forall line1 line2 : LineSegment float,
        LineSegmentsIntersection_denominator (exact_segment line1) (exact_segment line2)
        = 0%R ->
        LineSegmentsIntersection_denominator
          (exact_segment line1) (exact_segment (fst line1, fst line2)) = 0%R ->
        Collision2D.LineSegmentsIntersection line1 line2 = None)
  /\ ~ (forall (line1 line2 : LineSegment float) (p : Point float),
          Collision2D.LineSegmentsIntersection line1 line2 = Some p ->
          (PrimFloat.leb (fst line1).(x) p.(x) || PrimFloat.leb (snd line1).(x) p.(x))%bool
          = true).
Proof.
  split.
  - intros Hclaim.
    specialize (Hclaim (pt 2.56 0.256, pt 0.17 0.017) (pt 2.62 0.262, pt 0.6 0.06)).
    assert (Hsome : Collision2D.LineSegmentsIntersection
                      (pt 2.56 0.256, pt 0.17 0.017) (pt 2.62 0.262, pt 0.6 0.06)
                    = Some (pt (-0) 0)) by (vm_compute; reflexivity).
    rewrite Hsome in Hclaim.
    assert (Hnone : Some (pt (-0) 0) = None); [|discriminate Hnone].
    apply Hclaim;
      unfold LineSegmentsIntersection_denominator, exact_segment, exact_point, pt;
      cbn [fst snd x y num_add num_sub num_mul num_neg Exact];
      F2R_eval 2.56%float; F2R_eval 0.256%float; F2R_eval 0.17%float;
      F2R_eval 0.017%float; F2R_eval 2.62%float; F2R_eval 0.262%float;
      try (F2R_eval 0.6%float; F2R_eval 0.06%float); lra.
  - intros Hclaim.
    specialize (Hclaim (pt 1e10 1e10, pt 10000000002 10000000002)
                       (pt 1e10 10000000002, pt 10000000002 1e10)
                       (pt 9999998976 9999998976)).
    assert (Hsome : Collision2D.LineSegmentsIntersection
                      (pt 1e10 1e10, pt 10000000002 10000000002)
                      (pt 1e10 10000000002, pt 10000000002 1e10)
                    = Some (pt 9999998976 9999998976)) by (vm_compute; reflexivity).
    specialize (Hclaim Hsome). vm_compute in Hclaim. discriminate.
Qed.

(* ------------------------------------------------------------------ *)
(** ** CirclesIntersection on one circle taken twice *)

Section IdenticalCircles.
Local Open Scope float_scope.

(** C10. For two identical circles (a finite centre, a radius that is not
    negative, so in particular every positive one) the distance of the
    centres is 0, neither null guard fires, [a] is a quotient by [2 * 0]
    and is NaN, and [CirclesIntersection] returns an array of two points
    whose four coordinates are NaN. *)
Theorem CirclesIntersection_identical_circles_nan :
  forall c : Circle float,
    is_finite c.(center).(x) = true ->
    is_finite c.(center).(y) = true ->
    (0 <=? c.(radius)) = true ->
    (Collision2D.CirclesIntersection_d c c =? 0) = true
    /\ exists p q : Point float,
        Collision2D.CirclesIntersection c c = Some [p; q]
        /\ is_nan p.(x) = true /\ is_nan p.(y) = true
        /\ is_nan q.(x) = true /\ is_nan q.(y) = true.
Proof.
  intros [r [cx cy]]; cbn [center radius x y]. intros Hx Hy Hr.
  unfold Collision2D.CirclesIntersection, Collision2D.CirclesIntersection_d. cbn.
  rewrite (finite_sub_self cx Hx), (finite_sub_self cy Hy).
  change (PrimFloat.sqrt (0 * 0 + 0 * 0)) with 0.
  change (2 * 0) with 0. change (0 * 0) with 0.
  split; [reflexivity|].
  set (a := (r * r - r * r + 0) / 0).
  assert (Ha : is_nan a = true).
  { apply zero_or_nan_div_zero, zero_or_nan_add_zero, sub_self_zero_or_nan. }
  set (h := PrimFloat.sqrt (r * r - a * a)).
  set (x2 := cx + 0 * a / 0).
  assert (Hx2 : is_nan x2 = true).
  { apply nan_add_r, nan_div_l, nan_mul_r, Ha. }
  set (y2 := cy + 0 * a / 0).
  assert (Hy2 : is_nan y2 = true).
  { apply nan_add_r, nan_div_l, nan_mul_r, Ha. }
  rewrite (nonneg_add_self_not_below r Hr).
  rewrite (zero_or_nan_abs_not_above (r - r) (sub_self_zero_or_nan r)).
  rewrite (nan_eqb_l (x2 + - 0 * (h / 0)) _ (nan_add_l _ _ Hx2)).
  cbn [andb].
  eexists; eexists; split; [reflexivity|]. cbn [x y].
  repeat split.
  - apply nan_add_l, Hx2.
  - apply nan_add_l, Hy2.
  - apply nan_sub_l, Hx2.
  - apply nan_sub_l, Hy2.
Qed.

(** The theorem at the circle of radius 5 around the origin. *)
Lemma CirclesIntersection_identical_circles_nan_witness :
  exists p q : Point float,
    Collision2D.CirclesIntersection (circle 5 (pt 0 0)) (circle 5 (pt 0 0)) = Some [p; q]
    /\ is_nan p.(x) = true /\ is_nan p.(y) = true
    /\ is_nan q.(x) = true /\ is_nan q.(y) = true.
Proof.
  apply (CirclesIntersection_identical_circles_nan (circle 5 (pt 0 0))); reflexivity.
Defined.
End IdenticalCircles.

(* ------------------------------------------------------------------ *)
(** ** TranslateTo: what it writes *)

Section Store.
Context {N : Type} `{Number N}.

Lemma set_x_other (h : Polygon.store) (r : Polygon.ref) (v : N) (r' : Polygon.ref) :
  r' <> r -> Polygon.set_x h r v r' = h r'.
Proof.
  intros Hne. unfold Polygon.set_x.
  destruct (Nat.eqb r' r) eqn:E; [apply Nat.eqb_eq in E; contradiction|reflexivity].
Qed.

Lemma set_y_other (h : Polygon.store) (r : Polygon.ref) (v : N) (r' : Polygon.ref) :
  r' <> r -> Polygon.set_y h r v r' = h r'.
Proof.
  intros Hne. unfold Polygon.set_y.
  destruct (Nat.eqb r' r) eqn:E; [apply Nat.eqb_eq in E; contradiction|reflexivity].
Qed.

Lemma set_x_same (h : Polygon.store) (r : Polygon.ref) (v : N) :
  Polygon.set_x h r v r = {| x := v; y := (h r).(y) |}.
Proof. unfold Polygon.set_x. rewrite Nat.eqb_refl. reflexivity. Qed.

Lemma set_y_same (h : Polygon.store) (r : Polygon.ref) (v : N) :
  Polygon.set_y h r v r = {| x := (h r).(x); y := v |}.
Proof. unfold Polygon.set_y. rewrite Nat.eqb_refl. reflexivity. Qed.

(** One pass of the loop body writes the vertex it visits and nothing else. *)
Lemma shift_other (vector : Polygon.ref) (h : Polygon.store) (v r : Polygon.ref) :
  r <> v -> Polygon.shift vector h v r = h r.
Proof.
  intros Hne. unfold Polygon.shift. rewrite set_y_other, set_x_other; auto.
Qed.

Lemma shift_same (vector : Polygon.ref) (h : Polygon.store) (v : Polygon.ref) :
  v <> vector ->
  Polygon.shift vector h v v
  = {| x := num_add (h v).(x) (h vector).(x); y := num_add (h v).(y) (h vector).(y) |}.
Proof.
  intros Hne. unfold Polygon.shift.
  rewrite set_y_same, !set_x_same. cbn [x y].
  rewrite set_x_other by (intros Heq; apply Hne; symmetry; exact Heq).
  reflexivity.
Qed.

Lemma fold_shift_other (vector : Polygon.ref) (polygon : list Polygon.ref) :
  forall (h : Polygon.store) (r : Polygon.ref),
    ~ In r polygon -> fold_left (Polygon.shift vector) polygon h r = h r.
Proof.
  induction polygon as [|v polygon IH]; intros h r Hnot; cbn.
  - reflexivity.
  - rewrite IH by (intros Hin; apply Hnot; right; exact Hin).
    apply shift_other. intros Heq. apply Hnot. left. symmetry. exact Heq.
Qed.

Lemma fold_shift_vertex (vector : Polygon.ref) (polygon : list Polygon.ref) :
  forall (h : Polygon.store) (r : Polygon.ref),
    NoDup polygon -> ~ In vector polygon -> In r polygon ->
    fold_left (Polygon.shift vector) polygon h r
    = {| x := num_add (h r).(x) (h vector).(x); y := num_add (h r).(y) (h vector).(y) |}.
Proof.
  induction polygon as [|v polygon IH]; intros h r Hnodup Hvec Hin; cbn.
  - destruct Hin.
  - inversion Hnodup as [|v' l' Hv Hrest]; subst.
    assert (Hvv : v <> vector) by (intros Heq; apply Hvec; left; exact Heq).
    destruct Hin as [Heq|Hin].
    + subst r. rewrite fold_shift_other by exact Hv. apply shift_same. exact Hvv.
    + rewrite IH; [|exact Hrest|intros Hc; apply Hvec; right; exact Hc|exact Hin].
      assert (Hrv : r <> v) by (intros Heq; subst r; contradiction).
      rewrite (shift_other vector h v r Hrv).
      rewrite (shift_other vector h v vector) by (intros Heq; apply Hvv; symmetry; exact Heq).
      reflexivity.
Qed.

(** The three effects of [TranslateTo], one by one. *)
Lemma TranslateTo_frame (h : Polygon.store) (polygon : list Polygon.ref)
    (position r : Polygon.ref) :
  ~ In r polygon -> r <> position -> Polygon.TranslateTo h polygon position r = h r.
Proof.
  intros Hnot Hne. unfold Polygon.TranslateTo.
  rewrite fold_shift_other by exact Hnot.
  rewrite set_y_other, set_x_other; auto.
Qed.

Lemma TranslateTo_position (h : Polygon.store) (polygon : list Polygon.ref)
    (position : Polygon.ref) :
  ~ In position polygon ->
  Polygon.TranslateTo h polygon position position
  = {| x := num_sub (h position).(x)
                    (Polygon.GetCenterPoint (Polygon.deref h polygon)).(x);
       y := num_sub (h position).(y)
                    (Polygon.GetCenterPoint (Polygon.deref h polygon)).(y) |}.
Proof.
  intros Hnot. unfold Polygon.TranslateTo.
  rewrite fold_shift_other by exact Hnot.
  rewrite set_y_same, !set_x_same. reflexivity.
Qed.

Lemma TranslateTo_vertices (h : Polygon.store) (polygon : list Polygon.ref)
    (position r : Polygon.ref) :
  NoDup polygon -> ~ In position polygon -> In r polygon ->
  Polygon.TranslateTo h polygon position r
  = {| x := num_add (h r).(x)
                    (num_sub (h position).(x)
                             (Polygon.GetCenterPoint (Polygon.deref h polygon)).(x));
       y := num_add (h r).(y)
                    (num_sub (h position).(y)
                             (Polygon.GetCenterPoint (Polygon.deref h polygon)).(y)) |}.
Proof.
  intros Hnodup Hnot Hin. unfold Polygon.TranslateTo.
  rewrite (fold_shift_vertex position polygon _ r Hnodup Hnot Hin).
  assert (Hne : r <> position) by (intros Heq; subst r; contradiction).
  rewrite set_y_same, !set_x_same. cbn [x y].
  rewrite set_y_other, set_x_other by exact Hne.
  reflexivity.
Qed.

(** When the target is itself a vertex, the loop reaches it and adds it to
    itself. *)
Lemma fold_shift_self (vector : Polygon.ref) (polygon : list Polygon.ref) :
  forall h : Polygon.store,
    NoDup polygon -> In vector polygon ->
    fold_left (Polygon.shift vector) polygon h vector
    = {| x := num_add (h vector).(x) (h vector).(x);
         y := num_add (h vector).(y) (h vector).(y) |}.
Proof.
  induction polygon as [|v polygon IH]; intros h Hnodup Hin; cbn.
  - destruct Hin.
  - inversion Hnodup as [|v' l' Hv Hrest]; subst.
    destruct (Nat.eq_dec v vector) as [Heq|Hne].
    + subst v. rewrite fold_shift_other by exact Hv.
      unfold Polygon.shift. rewrite set_y_same, !set_x_same. reflexivity.
    + destruct Hin as [Heq|Hin]; [contradiction|].
      rewrite IH by assumption.
      rewrite (shift_other vector h v vector)
        by (intros Heq; apply Hne; symmetry; exact Heq).
      reflexivity.
Qed.

Lemma TranslateTo_position_vertex (h : Polygon.store) (polygon : list Polygon.ref)
    (position : Polygon.ref) :
  NoDup polygon -> In position polygon ->
  Polygon.TranslateTo h polygon position position
  = {| x := num_add (num_sub (h position).(x)
                             (Polygon.GetCenterPoint (Polygon.deref h polygon)).(x))
                    (num_sub (h position).(x)
                             (Polygon.GetCenterPoint (Polygon.deref h polygon)).(x));
       y := num_add (num_sub (h position).(y)
                             (Polygon.GetCenterPoint (Polygon.deref h polygon)).(y))
                    (num_sub (h position).(y)
                             (Polygon.GetCenterPoint (Polygon.deref h polygon)).(y)) |}.
Proof.
  intros Hnodup Hin. unfold Polygon.TranslateTo.
  rewrite (fold_shift_self position polygon _ Hnodup Hin).
  rewrite set_y_same, !set_x_same. reflexivity.
Qed.
End Store.

(** In exact arithmetic the target keeps its coordinates exactly for a
    polygon whose centroid is the origin. *)
Lemma TranslateTo_position_kept_exact (h : Polygon.store (N := R))
    (polygon : list Polygon.ref) (position : Polygon.ref) :
  ~ In position polygon ->
  (Polygon.TranslateTo h polygon position position = h position
   <-> Polygon.GetCenterPoint (Polygon.deref h polygon) = Polygon.origin).
Proof.
  intros Hnot. rewrite TranslateTo_position by exact Hnot.
  destruct (Polygon.GetCenterPoint (Polygon.deref h polygon)) as [cx cy].
  destruct (h position) as [px py]. cbn [x y num_sub Exact].
  unfold Polygon.origin. cbn [lit Exact]. split.
  - intros Heq. injection Heq as Hx Hy. f_equal; lra.
  - intros Heq. injection Heq as -> ->. f_equal; lra.
Qed.




(* ------------------------------------------------------------------ *)
(** ** TranslateTo: where the centroid lands *)

Section Landing.
Local Open Scope float_scope.

(** C7 at a target that is a vertex of the polygon. The triangle (0,0),
    (3,0), (0,3) has signed area 4.5 and centroid (1,1); asked to move its
    centroid onto its own vertex (3,0), [TranslateTo] first overwrites that
    vertex with the delta (2,-1), doubles it when the loop reaches it, and
    shifts the last vertex by the doubled value: the triangle ends as
    (2,-1), (4,-2), (4,1), whose centroid is more than half a unit away from
    (3,0). With the target in a separate object, here (7,7), the centroid
    lands on it. *)
Theorem TranslateTo_target_vertex_misses :
  let polygon := [0; 1; 2]%nat in
  let h' := Polygon.TranslateTo triangle_store polygon 1%nat in
  triangle_store 1%nat = pt 3 0
  /\ Polygon.GetArea (Polygon.deref triangle_store polygon) (Some true) = 4.5
  /\ Polygon.GetCenterPoint (Polygon.deref triangle_store polygon) = pt 1 1
  /\ Polygon.deref h' polygon = [pt 2 (-1); pt 4 (-2); pt 4 1]
  /\ (0.5 <? Vector2.DistanceBetween
               (Polygon.GetCenterPoint (Polygon.deref h' polygon)) (pt 3 0)) = true
  /\ Polygon.GetCenterPoint
       (Polygon.deref (Polygon.TranslateTo triangle_store polygon 3%nat) polygon)
     = triangle_store 3%nat.
Proof. repeat split; vm_compute; reflexivity. Qed.
End Landing.

(* ------------------------------------------------------------------ *)
(** ** Facts of exact arithmetic *)

Section ExactFacts.
Local Open Scope R_scope.

Lemma exact_js_or_nonzero (a b : R) : a <> 0 -> js_or a b = a.
Proof.
  intros Hne. unfold js_or. cbn. destruct (Req_dec_T a 0); [contradiction|reflexivity].
Qed.

Lemma exact_js_or_zero (a : R) : js_or a 0 = a.
Proof.
  unfold js_or. cbn. destruct (Req_dec_T a 0); cbn; congruence.
Qed.
End ExactFacts.

(* ------------------------------------------------------------------ *)
(** ** Normalize and normalize *)

Section NormalizeExact.
Local Open Scope R_scope.

(** In exact arithmetic the normalized vector has length 1. *)
Lemma Normalize_unit_exact (v : Point R) :
  v.(x) <> 0 \/ v.(y) <> 0 ->
  Vector2.Length (Vector2.Normalize v) = 1 /\ Vector2.length (Vector2.normalize v) = 1.
Proof.
  intros Hnz. destruct v as [a b]; cbn [x y] in *.
  assert (Hpos : 0 < a * a + b * b) by (destruct Hnz; nra).
  assert (Hs : 0 < sqrt (a * a + b * b)) by (apply sqrt_lt_R0; exact Hpos).
  assert (Hss : sqrt (a * a + b * b) * sqrt (a * a + b * b) = a * a + b * b)
    by (apply sqrt_sqrt; lra).
  unfold Vector2.Length, Vector2.length, Vector2.Normalize, Vector2.normalize, Vector2.new.
  cbn [x y num_add num_mul num_div Math_sqrt Exact lit].
  rewrite (exact_js_or_nonzero (sqrt (a * a + b * b)) 1) by lra.
  rewrite !exact_js_or_zero.
  set (s := sqrt (a * a + b * b)) in *.
  assert (Hone : a / s * (a / s) + b / s * (b / s) = 1).
  { replace (a / s * (a / s) + b / s * (b / s)) with ((a * a + b * b) / (s * s))
      by (field; lra).
    rewrite Hss. field. lra. }
  rewrite Hone, sqrt_1. split; reflexivity.
Qed.
End NormalizeExact.

Section NormalizeBinary64.
Local Open Scope float_scope.

Lemma eqb_zero_cases (a : float) : (a =? 0) = true -> a = 0 \/ a = -0.
Proof.
  intros Ha. rewrite FloatAxioms.eqb_spec in Ha.
  change (Prim2SF 0) with (S754_zero false) in Ha.
  rewrite <- (SF2Prim_Prim2SF a).
  destruct (Prim2SF a) as [s| s| |s m e]; cbn in Ha;
    try destruct s; try discriminate;
    first [left; reflexivity | right; reflexivity].
Qed.

(** The divisor is never zero and never NaN. *)
Lemma Normalize_divisor_binary64 (v : Point float) :
  (Normalize_divisor v =? 0) = false /\ is_nan (Normalize_divisor v) = false.
Proof.
  unfold Normalize_divisor, js_or.
  cbn [num_add num_mul num_eq isNaN Math_sqrt IEEE lit float_lit].
  set (s := PrimFloat.sqrt (v.(x) * v.(x) + v.(y) * v.(y))).
  change PrimFloat.zero with 0.
  destruct ((s =? 0) || is_nan s)%bool eqn:E.
  - split; reflexivity.
  - apply orb_false_iff in E. exact E.
Qed.

(** The four zero vectors, (0,0), (0,-0), (-0,0) and (-0,-0). *)
Lemma Normalize_zero_binary64 (v : Point float) :
  (v.(x) =? 0) = true -> (v.(y) =? 0) = true ->
  Vector2.Normalize v = pt 0 0 /\ Vector2.normalize v = v.
Proof.
  destruct v as [a b]; cbn [x y]. intros Ha Hb.
  destruct (eqb_zero_cases a Ha) as [-> | ->], (eqb_zero_cases b Hb) as [-> | ->];
    split; vm_compute; reflexivity.
Qed.

(** The grid of vectors [(a * 2^k, b * 2^k)], checked by evaluation. *)
Lemma Z_range_In (lo : Z) (n : nat) (z : Z) :
  (lo <= z < lo + Z.of_nat n)%Z -> In z (Z_range lo n).
Proof.
  intros Hz. unfold Z_range.
  apply in_map_iff. exists (Z.to_nat (z - lo)). split; [lia|].
  apply in_seq. lia.
Qed.

Lemma normalize_grid_spec (size klo : Z) (kn : nat) :
  normalize_grid size klo kn = true ->
  forall a b k : Z,
    (- size <= a <= size)%Z -> (- size <= b <= size)%Z -> (a <> 0 \/ b <> 0)%Z ->
    (klo <= k < klo + Z.of_nat kn)%Z ->
    normalize_near_one (scaled_vector a b k) = true.
Proof.
  unfold normalize_grid. intros Hgrid a b k Ha Hb Hne Hk.
  assert (Hin : forall z : Z, (- size <= z <= size)%Z ->
            In z (Z_range (- size) (Z.to_nat (2 * size + 1)))).
  { intros z Hz. apply Z_range_In. lia. }
  rewrite forallb_forall in Hgrid. specialize (Hgrid k (Z_range_In _ _ _ Hk)).
  rewrite forallb_forall in Hgrid. specialize (Hgrid a (Hin a Ha)).
  rewrite forallb_forall in Hgrid. specialize (Hgrid b (Hin b Hb)).
  apply orb_true_iff in Hgrid. destruct Hgrid as [Hz | Hok]; [|exact Hok].
  apply andb_true_iff in Hz. destruct Hz as [Hza Hzb].
  apply Z.eqb_eq in Hza. apply Z.eqb_eq in Hzb. lia.
Qed.

Lemma normalize_grid_16 : normalize_grid 16 (-500) 1001 = true.
Proof. vm_compute. reflexivity. Qed.

End NormalizeBinary64.




(* ------------------------------------------------------------------ *)
(** ** CirclesIntersection *)

Section CirclesExact.
Local Open Scope R_scope.

(** The three cases of the construction in exact arithmetic. *)
Lemma CirclesIntersection_exact :
  forall c1 c2 : Circle R,
    0 <= c1.(radius) -> 0 <= c2.(radius) -> c1.(center) <> c2.(center) ->
    let d := Collision2D.CirclesIntersection_d c1 c2 in
    let r0 := c1.(radius) in
    let r1 := c2.(radius) in
    (Collision2D.CirclesIntersection c1 c2 = None <-> r0 + r1 < d \/ d < Rabs (r0 - r1))
    /\ (d = r0 + r1 \/ d = Rabs (r0 - r1) ->
        exists p, Collision2D.CirclesIntersection c1 c2 = Some [p])
    /\ (Rabs (r0 - r1) < d < r0 + r1 ->
        exists p q, p <> q /\ Collision2D.CirclesIntersection c1 c2 = Some [p; q]).
Proof.
  intros [r0 [x0 y0]] [r1 [x1 y1]]. cbv zeta. cbn [radius center].
  intros Hr0 Hr1 Hdistinct.
  set (d := Collision2D.CirclesIntersection_d _ _).
  assert (Hcoord : x1 - x0 <> 0 \/ y1 - y0 <> 0).
  { destruct (Req_dec_T x1 x0) as [Ex|Ex]; [|left; lra].
    destruct (Req_dec_T y1 y0) as [Ey|Ey]; [|right; lra].
    exfalso. apply Hdistinct. subst. reflexivity. }
  set (dx := x1 - x0) in *. set (dy := y1 - y0) in *.
  assert (Hsq : 0 < dy * dy + dx * dx) by (destruct Hcoord; nra).
  assert (Hd : d = sqrt (dy * dy + dx * dx)) by reflexivity.
  clearbody d.
  assert (Hdpos : 0 < d) by (rewrite Hd; apply sqrt_lt_R0; exact Hsq).
  assert (Hdd : d * d = dy * dy + dx * dx) by (rewrite Hd; apply sqrt_sqrt; lra).
  unfold Collision2D.CirclesIntersection.
  cbn [radius center x y num_add num_sub num_mul num_div num_neg Math_sqrt Math_abs
       num_lt num_eq Exact lit].
  fold dx dy. rewrite <- Hd.
  set (a := (r0 * r0 - r1 * r1 + d * d) / (2 * d)).
  set (h := sqrt (r0 * r0 - a * a)).
  assert (Hsame : forall u w : R, u + w = u - w <-> w = 0) by (intros; split; intros; lra).
  assert (Hr : h <> 0 -> ~ (- dy * (h / d) = 0 /\ dx * (h / d) = 0)).
  { intros Hh [E1 E2].
    assert (Hq : h / d <> 0).
    { unfold Rdiv. apply Rmult_integral_contrapositive. split; [exact Hh|].
      apply Rinv_neq_0_compat. lra. }
    destruct Hcoord as [Hc|Hc].
    - apply Rmult_integral in E2. destruct E2; contradiction.
    - apply Rmult_integral in E1. destruct E1 as [E1|E1]; [lra|contradiction]. }
  assert (Habs : Rabs (r0 - r1) <= r0 + r1).
  { unfold Rabs. destruct (Rcase_abs (r0 - r1)); lra. }
  assert (Habs2 : Rabs (r0 - r1) * Rabs (r0 - r1) = (r0 - r1) * (r0 - r1)).
  { unfold Rabs. destruct (Rcase_abs (r0 - r1)); ring. }
  assert (Ha : a = (r0 * r0 - r1 * r1 + d * d) / (2 * d)) by reflexivity.
  assert (Hkey : (r0 * r0 - a * a) * (4 * (d * d))
                 = (r1 * r1 - (d - r0) * (d - r0)) * ((d + r0) * (d + r0) - r1 * r1)).
  { rewrite Ha. field. lra. }
  repeat split.
  - (* null only under a guard *)
    destruct (Rlt_dec (r0 + r1) d) as [G1|G1]; [intros _; left; exact G1|].
    destruct (Rlt_dec d (Rabs (r0 - r1))) as [G2|G2]; [intros _; right; exact G2|].
    match goal with |- context [if ?b then _ else _] => destruct b end; discriminate.
  - (* a guard gives null *)
    intros [G|G].
    + destruct (Rlt_dec (r0 + r1) d); [reflexivity|contradiction].
    + destruct (Rlt_dec (r0 + r1) d); [reflexivity|].
      destruct (Rlt_dec d (Rabs (r0 - r1))); [reflexivity|contradiction].
  - (* tangent: one point *)
    intros Htan.
    destruct (Rlt_dec (r0 + r1) d) as [G1|G1]; [destruct Htan; lra|].
    destruct (Rlt_dec d (Rabs (r0 - r1))) as [G2|G2]; [destruct Htan; lra|].
    assert (Hzero : r0 * r0 - a * a = 0).
    { assert (Hprod : (r0 * r0 - a * a) * (4 * (d * d)) = 0).
      { rewrite Hkey. destruct Htan as [Et|Et].
        - rewrite Et. ring.
        - replace ((r1 * r1 - (d - r0) * (d - r0)) * ((d + r0) * (d + r0) - r1 * r1))
            with ((d * d - (r0 - r1) * (r0 - r1)) * ((r0 + r1) * (r0 + r1) - d * d))
            by ring.
          rewrite Et at 1 2. rewrite Habs2. ring. }
      apply Rmult_integral in Hprod. destruct Hprod as [Hp|Hp]; [exact Hp|nra]. }
    assert (Hh0 : h = 0) by (unfold h; rewrite Hzero; apply sqrt_0).
    rewrite Hh0.
    replace (- dy * (0 / d)) with 0 by (field; lra).
    replace (dx * (0 / d)) with 0 by (field; lra).
    destruct (Req_dec_T _ _) as [E1|E1]; [|exfalso; apply E1; lra].
    destruct (Req_dec_T _ _) as [E2|E2]; [|exfalso; apply E2; lra].
    cbn [andb]. eexists. reflexivity.
  - (* strictly between: two distinct points *)
    intros [Hlo Hhi].
    destruct (Rlt_dec (r0 + r1) d) as [G1|G1]; [lra|].
    destruct (Rlt_dec d (Rabs (r0 - r1))) as [G2|G2]; [lra|].
    assert (Hlo' : - d < r0 - r1 < d).
    { unfold Rabs in Hlo. destruct (Rcase_abs (r0 - r1)); lra. }
    assert (Hpos : 0 < r0 * r0 - a * a).
    { assert (Hf1 : 0 < r1 * r1 - (d - r0) * (d - r0)) by nra.
      assert (Hf2 : 0 < (d + r0) * (d + r0) - r1 * r1) by nra.
      assert (Hprod : 0 < (r0 * r0 - a * a) * (4 * (d * d))).
      { rewrite Hkey. apply Rmult_lt_0_compat; assumption. }
      assert (H4 : 0 < 4 * (d * d)) by nra.
      destruct (Rle_or_lt (r0 * r0 - a * a) 0) as [Hc|Hc]; [|exact Hc].
      exfalso. nra. }
    assert (Hh : h <> 0).
    { assert (0 < h) by (unfold h; apply sqrt_lt_R0; exact Hpos). lra. }
    specialize (Hr Hh).
    set (x2 := x0 + dx * a / d) in *. set (y2 := y0 + dy * a / d) in *.
    set (rx := - dy * (h / d)) in *. set (ry := dx * (h / d)) in *.
    assert (Hdiff : ~ (x2 + rx = x2 - rx /\ y2 + ry = y2 - ry)).
    { intros [E1 E2]. apply Hr. split; lra. }
    exists {| x := x2 + rx; y := y2 + ry |}, {| x := x2 - rx; y := y2 - ry |}.
    split.
    + intros Heq. injection Heq as E1 E2. apply Hdiff. split; assumption.
    + destruct (Req_dec_T (x2 + rx) (x2 - rx)) as [E1|E1];
        destruct (Req_dec_T (y2 + ry) (y2 - ry)) as [E2|E2]; cbn [andb];
        try reflexivity.
      exfalso. apply Hdiff. split; assumption.
Qed.
End CirclesExact.

Section CirclesBinary64.
Local Open Scope float_scope.

(** What the code returns, case by case, in binary64. *)
Lemma CirclesIntersection_binary64 (c1 c2 : Circle float) :
  let d := Collision2D.CirclesIntersection_d c1 c2 in
  let r0 := c1.(radius) in
  let r1 := c2.(radius) in
  (Collision2D.CirclesIntersection c1 c2 = None
   <-> ((r0 + r1 <? d) || (d <? abs (r0 - r1)))%bool = true)
  /\ (Collision2D.CirclesIntersection c1 c2 = None
      \/ (exists p, Collision2D.CirclesIntersection c1 c2 = Some [p])
      \/ (exists p q, Collision2D.CirclesIntersection c1 c2 = Some [p; q]
                      /\ ((p.(x) =? q.(x)) && (p.(y) =? q.(y)))%bool = false)).
Proof.
  cbv zeta. unfold Collision2D.CirclesIntersection, Collision2D.CirclesIntersection_d.
  cbn [num_add num_sub num_mul num_div num_neg Math_sqrt Math_abs num_lt num_eq IEEE lit
       float_lit].
  set (d := PrimFloat.sqrt _).
  destruct (c1.(radius) + c2.(radius) <? d) eqn:G1; cbn [orb].
  - split; [split; reflexivity|left; reflexivity].
  - destruct (d <? abs (c1.(radius) - c2.(radius))) eqn:G2.
    + split; [split; reflexivity|left; reflexivity].
    + match goal with |- context [if ?b then _ else _] => destruct b eqn:E end.
      * split; [split; discriminate|right; left; eexists; reflexivity].
      * split; [split; discriminate|].
        right; right. eexists; eexists. split; [reflexivity|]. cbn [x y]. exact E.
Qed.

End CirclesBinary64.

(** C6, as the code has it. Read in exact arithmetic, for circles with
    non-negative radii and distinct centres at distance [d]:
    [CirclesIntersection] returns null exactly when [d > r0 + r1] or
    [d < |r0 - r1|], one point when the circles are tangent, and two
    different points otherwise. In binary64 it returns null exactly when one
    of the two guards fires on the computed values, and otherwise one point
    or two points that do not compare equal. The three runs of the
    specification hold in binary64: radius-5 circles at (0,0) and (8,0) give
    (4,3) and (4,-3), at (0,0) and (10,0) give the one point (5,0), at (0,0)
    and (20,0) give null. *)
Theorem CirclesIntersection_cases :
  (forall c1 c2 : Circle R,
      (0 <= c1.(radius))%R -> (0 <= c2.(radius))%R -> c1.(center) <> c2.(center) ->
      let d := Collision2D.CirclesIntersection_d c1 c2 in
      let r0 := c1.(radius) in
      let r1 := c2.(radius) in
      (Collision2D.CirclesIntersection c1 c2 = None
       <-> (r0 + r1 < d)%R \/ (d < Rabs (r0 - r1))%R)
      /\ ((d = r0 + r1)%R \/ d = Rabs (r0 - r1) ->
          exists p, Collision2D.CirclesIntersection c1 c2 = Some [p])
      /\ ((Rabs (r0 - r1) < d < r0 + r1)%R ->
          exists p q, p <> q /\ Collision2D.CirclesIntersection c1 c2 = Some [p; q]))
  /\ (forall c1 c2 : Circle float,
        let d := Collision2D.CirclesIntersection_d c1 c2 in
        let r0 := c1.(radius) in
        let r1 := c2.(radius) in
        (Collision2D.CirclesIntersection c1 c2 = None
         <-> (PrimFloat.ltb (r0 + r1) d || PrimFloat.ltb d (PrimFloat.abs (r0 - r1)))%float
             = true)
        /\ (Collision2D.CirclesIntersection c1 c2 = None
            \/ (exists p, Collision2D.CirclesIntersection c1 c2 = Some [p])
            \/ (exists p q, Collision2D.CirclesIntersection c1 c2 = Some [p; q]
                            /\ (PrimFloat.eqb p.(x) q.(x) && PrimFloat.eqb p.(y) q.(y))%bool
                               = false)))
  /\ Collision2D.CirclesIntersection (circle 5 (pt 0 0)) (circle 5 (pt 8 0))
     = Some [pt 4 3; pt 4 (-3)]
  /\ Collision2D.CirclesIntersection (circle 5 (pt 0 0)) (circle 5 (pt 10 0))
     = Some [pt 5 0]
  /\ Collision2D.CirclesIntersection (circle 5 (pt 0 0)) (circle 5 (pt 20 0)) = None.
Proof.
  split; [exact CirclesIntersection_exact|].
  split; [exact CirclesIntersection_binary64|].
  repeat split; vm_compute; reflexivity.
Qed.

(** The theorem at the exact circles of radius 5 centred at (0,0) and
    (8,0): two different points. *)
Lemma CirclesIntersection_cases_witness :
  exists p q : Point R,
    p <> q
    /\ Collision2D.CirclesIntersection
         {| radius := 5%R; center := {| x := 0%R; y := 0%R |} |}
         {| radius := 5%R; center := {| x := 8%R; y := 0%R |} |}
       = Some [p; q].
Proof.
  assert (Hd : Collision2D.CirclesIntersection_d
                 {| radius := 5%R; center := {| x := 0%R; y := 0%R |} |}
                 {| radius := 5%R; center := {| x := 8%R; y := 0%R |} |} = 8%R).
  { unfold Collision2D.CirclesIntersection_d. cbn.
    replace ((0 - 0) * (0 - 0) + (8 - 0) * (8 - 0))%R with (8 * 8)%R by ring.
    apply sqrt_square. lra. }
  apply (proj1 CirclesIntersection_cases
           {| radius := 5%R; center := {| x := 0%R; y := 0%R |} |}
           {| radius := 5%R; center := {| x := 8%R; y := 0%R |} |}).
  - cbn. lra.
  - cbn. lra.
  - cbn. intros Heq. injection Heq as Hx. lra.
  - rewrite Hd. cbn. replace (5 - 5)%R with 0%R by ring. rewrite Rabs_R0. lra.
Defined.

(** C6 as stated fails in binary64: the circles of radius 0.1 centred at
    (0,0) and (0.2,0) are tangent, the computed distance equals the sum of
    the radii, and the result is not one point (it is two points of NaN
    coordinates: [a] comes out above [r0], and [h] is the square root of a
    negative number). *)
Lemma CirclesIntersection_tangent_not_one_point :
  ~ (forall c1 c2 : Circle float,
        PrimFloat.leb 0 c1.(radius) = true -> PrimFloat.leb 0 c2.(radius) = true ->
        (PrimFloat.eqb c1.(center).(x) c2.(center).(x)
         && PrimFloat.eqb c1.(center).(y) c2.(center).(y))%bool = false ->
        PrimFloat.eqb (Collision2D.CirclesIntersection_d c1 c2)
                      (PrimFloat.add c1.(radius) c2.(radius)) = true ->
        exists p, Collision2D.CirclesIntersection c1 c2 = Some [p]).
Proof.
  intros Hclaim.
  destruct (Hclaim (circle 0.1 (pt 0 0)) (circle 0.1 (pt 0.2 0))) as [p Hp];
    try reflexivity.
  vm_compute in Hp. discriminate.
Qed.

(* ------------------------------------------------------------------ *)
(** ** Sums over the edges of a polygon, and the signed area *)

Section Sums.
Local Open Scope R_scope.

Lemma Rsum_cons (a : R) (l : list R) : Rsum (a :: l) = a + Rsum l.
Proof. reflexivity. Qed.

Lemma Rsum_nil : Rsum [] = 0.
Proof. reflexivity. Qed.

Lemma Rsum_app (l1 l2 : list R) : Rsum (l1 ++ l2) = Rsum l1 + Rsum l2.
Proof.
  induction l1 as [|a l1 IH]; cbn [app].
  - rewrite Rsum_nil. ring.
  - rewrite !Rsum_cons, IH. ring.
Qed.

Lemma Rsum_map_ext_in {A : Type} (f g : A -> R) (l : list A) :
  (forall a, In a l -> f a = g a) -> Rsum (map f l) = Rsum (map g l).
Proof. intros Hext. rewrite (map_ext_in f g l Hext). reflexivity. Qed.

Lemma Rsum_map_linear {A : Type} (f g t : A -> R) (c : R) (l : list A) :
  Rsum (map (fun a => f a + c * g a + t a) l)
  = Rsum (map f l) + c * Rsum (map g l) + Rsum (map t l).
Proof.
  induction l as [|a l IH]; cbn [map].
  - rewrite !Rsum_nil. ring.
  - rewrite !Rsum_cons, IH. ring.
Qed.

Lemma Rsum_map_zero {A : Type} (l : list A) : Rsum (map (fun _ => 0) l) = 0.
Proof.
  induction l as [|a l IH]; cbn [map]; [apply Rsum_nil|rewrite Rsum_cons, IH; ring].
Qed.

(** Summing around the polygon starting one vertex earlier. *)
Lemma Rsum_rotate (H : nat -> nat -> R) (n : nat) :
  Rsum (map (fun i => H (if Nat.eqb i 0 then (n - 1)%nat else (i - 1)%nat) i) (seq 0 n))
  = Rsum (map (fun i => H i ((i + 1) mod n)%nat) (seq 0 n)).
Proof.
  destruct n as [|m]; [reflexivity|].
  rewrite seq_S at 2. rewrite map_app, Rsum_app. cbn [seq map Nat.eqb plus].
  rewrite !Rsum_cons, Rsum_nil.
  rewrite <- seq_shift, map_map.
  replace (S m - 1)%nat with m by lia.
  replace ((m + 1) mod S m)%nat with 0%nat
    by (replace (m + 1)%nat with (S m) by lia; symmetry; apply Nat.Div0.mod_same).
  rewrite (Rsum_map_ext_in
             (fun i => H (if Nat.eqb (S i) 0 then m else (S i - 1)%nat) (S i))
             (fun i => H i ((i + 1) mod S m)%nat)).
  - ring.
  - intros i Hin. apply in_seq in Hin. cbn [Nat.eqb].
    replace (S i - 1)%nat with i by lia.
    rewrite Nat.mod_small by lia. replace (i + 1)%nat with (S i) by lia. reflexivity.
Qed.

(** A sum of differences around a closed polygon is zero. *)
Lemma edge_sum_telescope (g : Point R -> R) (polygon : list (Point R)) :
  edge_sum (fun p q => g q - g p) polygon = 0.
Proof.
  unfold edge_sum. set (n := length polygon).
  pose proof (Rsum_rotate (fun _ i => g (Polygon.item polygon i)) n) as Hrot.
  cbn beta in Hrot.
  pose proof (Rsum_map_linear
                (fun i => g (Polygon.item polygon ((i + 1) mod n)))
                (fun i => g (Polygon.item polygon i))
                (fun _ => 0) (-1) (seq 0 n)) as Hlin.
  cbn beta in Hlin.
  rewrite (Rsum_map_ext_in _
             (fun i => g (Polygon.item polygon ((i + 1) mod n))
                       + -1 * g (Polygon.item polygon i) + 0))
    by (intros; cbv beta; ring).
  rewrite Hlin, <- Hrot.
  rewrite Rsum_map_zero. ring.
Qed.

Lemma edge_sum_linear (F F' G : Point R -> Point R -> R) (g : Point R -> R) (c : R)
    (polygon : list (Point R)) :
  (forall p q, F' p q = F p q + c * G p q + (g q - g p)) ->
  edge_sum F' polygon = edge_sum F polygon + c * edge_sum G polygon.
Proof.
  intros Hpt.
  pose proof (edge_sum_telescope g polygon) as Htel.
  unfold edge_sum in *. set (n := length polygon) in *.
  rewrite (Rsum_map_ext_in _
             (fun i => F (Polygon.item polygon i) (Polygon.item polygon ((i + 1) mod n))
                       + c * G (Polygon.item polygon i) (Polygon.item polygon ((i + 1) mod n))
                       + (g (Polygon.item polygon ((i + 1) mod n)) - g (Polygon.item polygon i))))
    by (intros; cbv beta; apply Hpt).
  rewrite Rsum_map_linear, Htel. ring.
Qed.

(** The edges of the translated polygon. *)
Lemma edge_sum_translate (F : Point R -> Point R -> R) (a b : R) (polygon : list (Point R)) :
  edge_sum F (map (translate a b) polygon)
  = edge_sum (fun p q => F (translate a b p) (translate a b q)) polygon.
Proof.
  unfold edge_sum. rewrite length_map. set (n := length polygon).
  apply Rsum_map_ext_in. intros i Hin. apply in_seq in Hin.
  assert (Hn : (0 < n)%nat) by lia.
  assert (Hsucc : ((i + 1) mod n < n)%nat) by (apply Nat.mod_upper_bound; lia).
  unfold Polygon.item.
  rewrite (nth_indep (map (translate a b) polygon) Polygon.origin
             (translate a b Polygon.origin)) by (rewrite length_map; fold n; lia).
  rewrite (nth_indep (map (translate a b) polygon) Polygon.origin
             (translate a b Polygon.origin) (n := (i + 1) mod n))
    by (rewrite length_map; fold n; lia).
  rewrite !map_nth. reflexivity.
Qed.
End Sums.

Section Area.
Local Open Scope R_scope.

Lemma fold_left_area_sum (f : R * nat -> nat -> R * nat) (t : nat -> nat -> R) :
  (forall acc j i, f (acc, j) i = (acc + t j i, i)) ->
  forall (k s : nat) (acc : R) (j : nat),
    fst (fold_left f (seq s k) (acc, j))
    = acc + Rsum (map (fun i => t (if Nat.eqb i s then j else (i - 1)%nat) i) (seq s k)).
Proof.
  intros Hf. induction k as [|k IH]; intros s acc j; cbn [seq fold_left map].
  - rewrite Rsum_nil. cbn. ring.
  - rewrite Hf, IH, Rsum_cons, Nat.eqb_refl.
    rewrite (Rsum_map_ext_in
               (fun i => t (if Nat.eqb i (S s) then s else (i - 1)%nat) i)
               (fun i => t (if Nat.eqb i s then j else (i - 1)%nat) i)).
    + ring.
    + intros i Hin. apply in_seq in Hin.
      destruct (Nat.eqb i (S s)) eqn:E1; destruct (Nat.eqb i s) eqn:E2;
        try apply Nat.eqb_eq in E1; try apply Nat.eqb_eq in E2;
        try lia; try reflexivity.
      subst i. replace (S s - 1)%nat with s by lia. reflexivity.
Qed.

Lemma GetArea_edge_sum (polygon : list (Point R)) :
  Polygon.GetArea polygon (Some true) = edge_sum area_term polygon / 2.
Proof.
  unfold Polygon.GetArea.
  cbn [num_add num_sub num_mul num_div Exact lit].
  rewrite (fold_left_area_sum _
             (fun j i => area_term (Polygon.item polygon j) (Polygon.item polygon i)))
    by (intros; reflexivity).
  rewrite (Rsum_rotate
             (fun j i => area_term (Polygon.item polygon j) (Polygon.item polygon i))).
  unfold edge_sum. rewrite Rplus_0_l. reflexivity.
Qed.

(** The shoelace sum is the sum of the cross products. *)
Lemma area_term_cross (polygon : list (Point R)) :
  edge_sum area_term polygon = edge_sum cross_term polygon.
Proof.
  rewrite (edge_sum_linear cross_term area_term cross_term
             (fun p => - (p.(x) * p.(y))) 0).
  - ring.
  - intros p q. unfold area_term, cross_term. ring.
Qed.

Lemma GetArea_translate (a b : R) (polygon : list (Point R)) :
  Polygon.GetArea (map (translate a b) polygon) (Some true)
  = Polygon.GetArea polygon (Some true).
Proof.
  rewrite !GetArea_edge_sum, edge_sum_translate.
  rewrite (edge_sum_linear area_term _ area_term (fun p => - (2 * b * p.(x))) 0).
  - f_equal. ring.
  - intros p q. unfold area_term, translate. cbn [x y]. ring.
Qed.

End Area.

(* ------------------------------------------------------------------ *)
(** ** PointOnLineSegment on a segment of length zero *)

Section DegenerateSegment.
Local Open Scope float_scope.

Lemma SFcompare_swap (a b : spec_float) :
  SFcompare b a = option_map CompOpp (SFcompare a b).
Proof.
  destruct a as [sa| sa| |sa ma ea], b as [sb| sb| |sb mb eb]; cbn;
    try reflexivity; try (destruct sa; reflexivity); try (destruct sb; reflexivity);
    try (destruct sa, sb; reflexivity).
  destruct sa, sb; try reflexivity; cbn.
  - rewrite (Z.compare_antisym ea eb). destruct (Z.compare ea eb); cbn; try reflexivity.
    rewrite (Pos.compare_cont_antisym ma mb Eq). cbn.
    destruct (Pos.compare_cont Eq ma mb); reflexivity.
  - rewrite (Z.compare_antisym ea eb). destruct (Z.compare ea eb); cbn; try reflexivity.
    rewrite (Pos.compare_cont_antisym ma mb Eq). cbn. reflexivity.
Qed.

Lemma leb_both_eqb (a b : float) : (a <=? b) && (b <=? a) = (b =? a).
Proof.
  rewrite !FloatAxioms.leb_spec, FloatAxioms.eqb_spec.
  unfold SFleb, SFeqb. rewrite (SFcompare_swap (Prim2SF a) (Prim2SF b)).
  destruct (SFcompare (Prim2SF a) (Prim2SF b)) as [[| |]|]; reflexivity.
Qed.

Lemma zero_or_nan_sub (a b : float) : zero_or_nan a -> zero_or_nan b -> zero_or_nan (a - b).
Proof.
  intros Ha Hb. apply zero_or_nan_spec in Ha, Hb. apply zero_or_nan_spec.
  rewrite FloatAxioms.sub_spec.
  destruct Ha as [[sa Ha]|Ha], Hb as [[sb Hb]|Hb]; rewrite Ha, Hb.
  - left. destruct sa, sb; cbn; eauto.
  - right. reflexivity.
  - right. reflexivity.
  - right. reflexivity.
Qed.

(** X4. [PointOnLineSegment] with the default threshold 0 in binary64, on
    a segment whose two ends are one finite point [a]: the cross product is
    zero or NaN and passes the first test, the squared length 0 is not
    below 0, and the answer is that of the last test alone, which looks at
    the abscissa only: true exactly when [point.x] equals [a.x], whatever
    [point.y] is. *)
Theorem PointOnLineSegment_degenerate :
  forall point a : Point float,
    is_finite a.(x) = true -> is_finite a.(y) = true ->
    Collision2D.PointOnLineSegment0 point (a, a) = (point.(x) =? a.(x)).
Proof.
  intros [cx cy] [ax ay]. cbn [x y]. intros Hx Hy.
  unfold Collision2D.PointOnLineSegment0, Collision2D.PointOnLineSegment.
  cbn [fst snd x y num_sub num_mul num_lt num_le Math_abs IEEE lit float_lit].
  rewrite (finite_sub_self ax Hx), (finite_sub_self ay Hy).
  change PrimFloat.zero with 0.
  rewrite (zero_or_nan_abs_not_above ((cx - ax) * 0 - (cy - ay) * 0))
    by (apply zero_or_nan_sub; apply zero_or_nan_mul_zero_r; reflexivity).
  change (abs 0 <=? abs 0) with true. change (0 <? 0) with false. cbv iota.
  apply leb_both_eqb.
Qed.

(** The theorem at the point (2,9) and the segment from (2,3) to (2,3). *)
Lemma PointOnLineSegment_degenerate_witness :
  Collision2D.PointOnLineSegment0 (pt 2 9) (pt 2 3, pt 2 3) = true.
Proof.
  rewrite (PointOnLineSegment_degenerate (pt 2 9) (pt 2 3)); reflexivity.
Defined.
End DegenerateSegment.

(* ------------------------------------------------------------------ *)
(** ** LineSegmentsIntersection: the order of the arguments *)

Section IntersectionSymmetry.
Local Open Scope R_scope.

Lemma LineSegmentsIntersection_s_swap_exact (line1 line2 : LineSegment R) :
  LineSegmentsIntersection_denominator line1 line2 <> 0 ->
  Collision2D.LineSegmentsIntersection_s line1 line2
  = Collision2D.LineSegmentsIntersection_t line2 line1.
Proof.
  destruct line1 as [[ax ay] [bx by_]], line2 as [[cx cy] [ex ey]].
  unfold LineSegmentsIntersection_denominator,
    Collision2D.LineSegmentsIntersection_s, Collision2D.LineSegmentsIntersection_t.
  cbn [fst snd x y num_add num_sub num_mul num_div num_neg Exact].
  intros Hden. field. split; lra.
Qed.

Lemma LineSegmentsIntersection_t_swap_exact (line1 line2 : LineSegment R) :
  LineSegmentsIntersection_denominator line1 line2 <> 0 ->
  Collision2D.LineSegmentsIntersection_t line1 line2
  = Collision2D.LineSegmentsIntersection_s line2 line1.
Proof.
  destruct line1 as [[ax ay] [bx by_]], line2 as [[cx cy] [ex ey]].
  unfold LineSegmentsIntersection_denominator,
    Collision2D.LineSegmentsIntersection_s, Collision2D.LineSegmentsIntersection_t.
  cbn [fst snd x y num_add num_sub num_mul num_div num_neg Exact].
  intros Hden. field. split; lra.
Qed.

Lemma LineSegmentsIntersection_point_swap_exact (line1 line2 : LineSegment R) :
  LineSegmentsIntersection_denominator line1 line2 <> 0 ->
  Collision2D.LineSegmentsIntersection_point line1 line2
  = Collision2D.LineSegmentsIntersection_point line2 line1.
Proof.
  destruct line1 as [[ax ay] [bx by_]], line2 as [[cx cy] [ex ey]].
  unfold LineSegmentsIntersection_denominator, Collision2D.LineSegmentsIntersection_point.
  cbn [fst snd x y num_add num_sub num_mul num_div num_neg Exact].
  intros Hden. f_equal; field; split; lra.
Qed.

Lemma LineSegmentsIntersection_swap_exact (line1 line2 : LineSegment R) :
  LineSegmentsIntersection_denominator line1 line2 <> 0 ->
  Collision2D.LineSegmentsIntersection line1 line2
  = Collision2D.LineSegmentsIntersection line2 line1.
Proof.
  intros Hden. rewrite !LineSegmentsIntersection_if.
  rewrite (LineSegmentsIntersection_s_swap_exact line1 line2 Hden),
          (LineSegmentsIntersection_t_swap_exact line1 line2 Hden),
          (LineSegmentsIntersection_point_swap_exact line1 line2 Hden).
  rewrite andb_comm. reflexivity.
Qed.

(** X5. [LineSegmentsIntersection] in exact arithmetic, for two segments
    whose divisor is not zero, does not depend on the order of its
    arguments: swapping the segments swaps [s] and [t] and returns the same
    point or null. *)
Theorem LineSegmentsIntersection_symmetric_exact :
  forall line1 line2 : LineSegment R,
    LineSegmentsIntersection_denominator line1 line2 <> 0 ->
    Collision2D.LineSegmentsIntersection line1 line2
    = Collision2D.LineSegmentsIntersection line2 line1
    /\ Collision2D.LineSegmentsIntersection_s line1 line2
       = Collision2D.LineSegmentsIntersection_t line2 line1.
Proof.
  intros line1 line2 Hden. split.
  - apply LineSegmentsIntersection_swap_exact, Hden.
  - apply LineSegmentsIntersection_s_swap_exact, Hden.
Qed.

(** The theorem at the diagonals of the square of side 2. *)
Lemma LineSegmentsIntersection_symmetric_exact_witness :
  Collision2D.LineSegmentsIntersection
    ({| x := 0; y := 0 |}, {| x := 2; y := 2 |}) ({| x := 0; y := 2 |}, {| x := 2; y := 0 |})
  = Collision2D.LineSegmentsIntersection
      ({| x := 0; y := 2 |}, {| x := 2; y := 0 |}) ({| x := 0; y := 0 |}, {| x := 2; y := 2 |}).
Proof.
  apply (LineSegmentsIntersection_symmetric_exact
           ({| x := 0; y := 0 |}, {| x := 2; y := 2 |})
           ({| x := 0; y := 2 |}, {| x := 2; y := 0 |})).
  unfold LineSegmentsIntersection_denominator. cbn. lra.
Defined.
End IntersectionSymmetry.

(* ------------------------------------------------------------------ *)
(** ** LineSegmentCircleIntersection *)

Section SegmentCircleBinary64.
Local Open Scope float_scope.

Lemma sqrt_negative_nan (a : float) : (a <? 0) = true -> is_nan (PrimFloat.sqrt a) = true.
Proof.
  intros Hlt. apply is_nan_spec. rewrite FloatAxioms.sqrt_spec.
  rewrite FloatAxioms.ltb_spec in Hlt. change (Prim2SF 0) with (S754_zero false) in Hlt.
  destruct (Prim2SF a) as [s| s| |s m e]; cbn in Hlt |- *; try discriminate.
  - destruct s; [reflexivity | discriminate].
  - destruct s; [reflexivity | discriminate].
Qed.

(** X6. [LineSegmentCircleIntersection] in binary64. When the number under
    the square root is negative or NaN, the root is NaN and the function
    returns null. *)
Theorem LineSegmentCircleIntersection_negative_discriminant :
  forall (line : LineSegment float) (circle : Circle float),
    (LineSegmentCircleIntersection_discriminant line circle <? 0) = true
    \/ is_nan (LineSegmentCircleIntersection_discriminant line circle) = true ->
    Collision2D.LineSegmentCircleIntersection line circle = None.
Proof.
  intros line circle Hd.
  assert (Hnan : is_nan (PrimFloat.sqrt (LineSegmentCircleIntersection_discriminant line circle))
                 = true).
  { destruct Hd as [Hd | Hd]; [apply sqrt_negative_nan, Hd | apply nan_sqrt, Hd]. }
  unfold Collision2D.LineSegmentCircleIntersection.
  unfold LineSegmentCircleIntersection_discriminant in Hnan.
  cbn [x y num_add num_sub num_mul num_div Math_sqrt isNaN IEEE lit] in Hnan |- *.
  rewrite Hnan. reflexivity.
Qed.

(** The theorem at the segment from (-10,6) to (10,6) and the circle of
    radius 5 around the origin. *)
Lemma LineSegmentCircleIntersection_negative_discriminant_witness :
  Collision2D.LineSegmentCircleIntersection (pt (-10) 6, pt 10 6) (circle 5 (pt 0 0)) = None.
Proof.
  apply (LineSegmentCircleIntersection_negative_discriminant
           (pt (-10) 6, pt 10 6) (circle 5 (pt 0 0))).
  left. reflexivity.
Defined.
End SegmentCircleBinary64.

Section SegmentCircleExact.
Local Open Scope R_scope.

Lemma LineSegmentCircleIntersection_exact_unfold
    (ax ay bx by_ cx cy r : R) (p : Point R) :
  let b := ((bx - ax) * (ax - cx) + (by_ - ay) * (ay - cy)) * -2 in
  let c := 2 * ((bx - ax) * (bx - ax) + (by_ - ay) * (by_ - ay)) in
  let d := sqrt (b * b - 2 * c * ((ax - cx) * (ax - cx) + (ay - cy) * (ay - cy) - r * r)) in
  In p (all_points_of (Collision2D.LineSegmentCircleIntersection
                         ({| x := ax; y := ay |}, {| x := bx; y := by_ |})
                         {| radius := r; center := {| x := cx; y := cy |} |}))
  <-> (0 <= (b - d) / c <= 1
       /\ p = {| x := ax + (bx - ax) * ((b - d) / c); y := ay + (by_ - ay) * ((b - d) / c) |})
      \/ (0 <= (b + d) / c <= 1
       /\ p = {| x := ax + (bx - ax) * ((b + d) / c); y := ay + (by_ - ay) * ((b + d) / c) |}).
Proof.
  intros b c d.
  unfold Collision2D.LineSegmentCircleIntersection.
  cbn [fst snd x y radius center num_add num_sub num_mul num_div Math_sqrt isNaN
       num_le num_lt Exact lit].
  fold b; fold c; fold d.
  destruct (Rle_dec ((b - d) / c) 1) as [H1|H1], (Rle_dec 0 ((b - d) / c)) as [H2|H2],
           (Rle_dec ((b + d) / c) 1) as [H3|H3], (Rle_dec 0 ((b + d) / c)) as [H4|H4];
    cbn; intuition (try lra; auto).
Qed.


End SegmentCircleExact.

(* ------------------------------------------------------------------ *)
(** ** The loops over the edges of a polygon *)

Section Loops.
Context {A B : Type}.

Lemma fold_left_ext_eq (f g : A -> B -> A) (l : list B) (a : A) :
  (forall a b, f a b = g a b) -> fold_left f l a = fold_left g l a.
Proof.
  intros Hfg. revert a. induction l as [|b l IH]; intros a; cbn; [reflexivity|].
  rewrite Hfg. apply IH.
Qed.

Lemma fold_left_push (l acc : list A) :
  fold_left (fun toReturn point => toReturn ++ [point]) l acc = acc ++ l.
Proof.
  revert acc. induction l as [|a l IH]; intros acc; cbn.
  - symmetry. apply app_nil_r.
  - rewrite IH, <- app_assoc. reflexivity.
Qed.

Lemma fold_left_app_flat_map (g : B -> list A) (l : list B) (acc : list A) :
  fold_left (fun toReturn i => toReturn ++ g i) l acc = acc ++ flat_map g l.
Proof.
  revert acc. induction l as [|b l IH]; intros acc; cbn.
  - symmetry. apply app_nil_r.
  - rewrite IH, <- app_assoc. reflexivity.
Qed.

Lemma map_nth_seq (l : list A) (d : A) :
  map (fun i => nth i l d) (seq 0 (length l)) = l.
Proof.
  apply (nth_ext _ _ d d).
  - rewrite length_map, length_seq. reflexivity.
  - intros n Hn. rewrite length_map, length_seq in Hn.
    rewrite (nth_indep _ d (nth 0 l d)) by (rewrite length_map, length_seq; exact Hn).
    rewrite (map_nth (fun i => nth i l d) (seq 0 (length l)) 0%nat n).
    rewrite seq_nth by exact Hn. reflexivity.
Qed.

Lemma flat_map_nth_seq (f : A -> list B) (l : list A) (d : A) :
  flat_map (fun i => f (nth i l d)) (seq 0 (length l)) = flat_map f l.
Proof.
  rewrite !flat_map_concat_map.
  rewrite <- (map_map (fun i => nth i l d) f), map_nth_seq. reflexivity.
Qed.

Lemma nth_tl (l : list A) (i : nat) (d : A) : nth i (tl l) d = nth (S i) l d.
Proof. destruct l; [destruct i|]; reflexivity. Qed.

Lemma closed_pairs_length (l : list A) : length (closed_pairs l) = length l.
Proof.
  unfold closed_pairs. rewrite length_combine, length_app, length_firstn.
  destruct l; cbn [tl length]; lia.
Qed.

Lemma closed_pairs_loop (l : list A) (d : A) :
  map (fun i => (nth i l d, nth (if Nat.leb (length l) (i + 1) then 0 else i + 1) l d))
      (seq 0 (length l))
  = closed_pairs l.
Proof.
  apply (nth_ext _ _ (d, d) (d, d)).
  - rewrite length_map, length_seq, closed_pairs_length. reflexivity.
  - intros n Hn. rewrite length_map, length_seq in Hn.
    rewrite (nth_indep _ (d, d)
               ((fun i => (nth i l d,
                           nth (if Nat.leb (length l) (i + 1) then 0 else i + 1) l d)) 0%nat))
      by (rewrite length_map, length_seq; exact Hn).
    rewrite (map_nth (fun i => (nth i l d,
                           nth (if Nat.leb (length l) (i + 1) then 0 else i + 1) l d))
                     (seq 0 (length l)) 0%nat n).
    rewrite seq_nth by exact Hn. cbn [Nat.add].
    unfold closed_pairs. rewrite combine_nth.
    2:{ rewrite length_app, length_firstn. destruct l; cbn [tl length] in *; lia. }
    f_equal.
    destruct (Nat.leb (length l) (n + 1)) eqn:E.
    + apply Nat.leb_le in E.
      rewrite app_nth2 by (destruct l; cbn [tl length] in *; lia).
      replace (n - length (tl l))%nat with 0%nat by (destruct l; cbn [tl length] in *; lia).
      destruct l; reflexivity.
    + apply Nat.leb_gt in E.
      rewrite app_nth1 by (destruct l; cbn [tl length] in *; lia).
      rewrite nth_tl. f_equal. lia.
Qed.

Lemma non_empty_length (l : list A) :
  (if Nat.eqb (length l) 0 then None else Some l) = non_empty l.
Proof. destruct l; reflexivity. Qed.

Lemma flat_map_length_le (f : B -> list A) (k : nat) (l : list B) :
  (forall b, length (f b) <= k)%nat -> (length (flat_map f l) <= k * length l)%nat.
Proof.
  intros Hk. induction l as [|b l IH]; cbn; [lia|].
  rewrite length_app. specialize (Hk b). lia.
Qed.

Lemma non_empty_None (l : list A) : non_empty l = None <-> l = [].
Proof. destruct l; cbn; split; intros E; try reflexivity; discriminate. Qed.

Lemma non_empty_Some (l l' : list A) : non_empty l = Some l' -> l' = l /\ l <> [].
Proof. destruct l; cbn; intros E; [discriminate|]. injection E as <-. split; [reflexivity | discriminate]. Qed.
End Loops.

Section PolygonLoops.
Context {N : Type} `{Number N}.

Lemma GetPolygonEdges_eq (polygon : list (Point N)) :
  Collision2D._GetPolygonEdges polygon = closed_pairs polygon.
Proof.
  unfold Collision2D._GetPolygonEdges. cbv zeta.
  rewrite (fold_left_app_flat_map
             (fun i => [(Collision2D.item polygon i,
                    Collision2D.item polygon
                      (if Nat.leb (length polygon) (i + 1) then 0 else i + 1)%nat)])).
  cbn [app].
  rewrite flat_map_concat_map.
  rewrite <- (map_map (fun i => (Collision2D.item polygon i,
                    Collision2D.item polygon
                      (if Nat.leb (length polygon) (i + 1) then 0 else i + 1)%nat))
                      (fun e => [e])).
  unfold Collision2D.item. rewrite closed_pairs_loop.
  rewrite <- flat_map_concat_map.
  induction (closed_pairs polygon) as [|e l IH]; cbn; [reflexivity | rewrite IH; reflexivity].
Qed.

Lemma GetEdges_eq (polygon : list (Point N)) :
  Polygon.GetEdges polygon = Collision2D._GetPolygonEdges polygon.
Proof. reflexivity. Qed.

Lemma LineSegmentPolygonIntersection_eq (line : LineSegment N) (polygon : list (Point N)) :
  Collision2D.LineSegmentPolygonIntersection line polygon
  = non_empty (flat_map (fun edge => points_of (Collision2D.LineSegmentsIntersection edge line))
                        (closed_pairs polygon)).
Proof.
  unfold Collision2D.LineSegmentPolygonIntersection. cbv zeta.
  rewrite non_empty_length. f_equal.
  rewrite (fold_left_ext_eq _
             (fun toReturn i =>
                toReturn ++ (fun i => points_of (Collision2D.LineSegmentsIntersection
                    (nth i (Collision2D._GetPolygonEdges polygon)
                         (Collision2D.item polygon 0, Collision2D.item polygon 0)) line)) i)).
  2:{ intros a i. cbv beta.
      destruct (Collision2D.LineSegmentsIntersection _ line); cbn [points_of];
        [reflexivity | symmetry; apply app_nil_r]. }
  rewrite fold_left_app_flat_map. cbn [app].
  rewrite (flat_map_nth_seq
             (fun edge => points_of (Collision2D.LineSegmentsIntersection edge line))).
  rewrite GetPolygonEdges_eq. reflexivity.
Qed.

Lemma PolygonsIntersection_eq (polygon1 polygon2 : list (Point N)) :
  Collision2D.PolygonsIntersection polygon1 polygon2
  = non_empty
      (flat_map (fun edge1 =>
                   flat_map (fun edge2 =>
                               points_of (Collision2D.LineSegmentsIntersection edge1 edge2))
                            (closed_pairs polygon2))
                (closed_pairs polygon1)).
Proof.
  unfold Collision2D.PolygonsIntersection. cbv zeta.
  rewrite !GetPolygonEdges_eq.
  rewrite non_empty_length. f_equal.
  rewrite (fold_left_ext_eq _
             (fun toReturn i =>
                toReturn ++ (fun i =>
                  flat_map (fun edge2 =>
                    points_of (Collision2D.LineSegmentsIntersection
                      (nth i (closed_pairs polygon1)
                           (Collision2D.item polygon1 0, Collision2D.item polygon1 0)) edge2))
                    (closed_pairs polygon2)) i)).
  2:{ intros a i. cbv beta.
      rewrite (fold_left_ext_eq _
                 (fun toReturn j =>
                    toReturn ++ (fun j => points_of (Collision2D.LineSegmentsIntersection
                      (nth i (closed_pairs polygon1)
                           (Collision2D.item polygon1 0, Collision2D.item polygon1 0))
                      (nth j (closed_pairs polygon2)
                           (Collision2D.item polygon2 0, Collision2D.item polygon2 0)))) j)).
      2:{ intros a' j. cbv beta.
          destruct (Collision2D.LineSegmentsIntersection _ _); cbn [points_of];
            [reflexivity | symmetry; apply app_nil_r]. }
      rewrite fold_left_app_flat_map. f_equal.
      rewrite (flat_map_nth_seq
                 (fun edge2 => points_of (Collision2D.LineSegmentsIntersection
                    (nth i (closed_pairs polygon1)
                         (Collision2D.item polygon1 0, Collision2D.item polygon1 0)) edge2))).
      reflexivity. }
  rewrite fold_left_app_flat_map. cbn [app].
  rewrite (flat_map_nth_seq
             (fun edge1 => flat_map (fun edge2 =>
                points_of (Collision2D.LineSegmentsIntersection edge1 edge2))
                (closed_pairs polygon2))).
  reflexivity.
Qed.

Lemma CirclePolygonIntersection_eq (circle : Circle N) (polygon : list (Point N)) :
  Collision2D.CirclePolygonIntersection circle polygon
  = non_empty (flat_map (fun edge =>
                           all_points_of (Collision2D.LineSegmentCircleIntersection edge circle))
                        (closed_pairs polygon)).
Proof.
  unfold Collision2D.CirclePolygonIntersection. cbv zeta.
  rewrite non_empty_length. f_equal.
  rewrite (fold_left_ext_eq _
             (fun toReturn i =>
                toReturn ++ (fun i => all_points_of (Collision2D.LineSegmentCircleIntersection
                    (nth i (Collision2D._GetPolygonEdges polygon)
                         (Collision2D.item polygon 0, Collision2D.item polygon 0)) circle)) i)).
  2:{ intros a i. cbv beta.
      destruct (Collision2D.LineSegmentCircleIntersection _ circle); cbn [all_points_of];
        [apply fold_left_push | symmetry; apply app_nil_r]. }
  rewrite fold_left_app_flat_map. cbn [app].
  rewrite (flat_map_nth_seq
             (fun edge => all_points_of (Collision2D.LineSegmentCircleIntersection edge circle))).
  rewrite GetPolygonEdges_eq. reflexivity.
Qed.

Lemma points_of_length {A : Type} (o : option A) : (length (points_of o) <= 1)%nat.
Proof. destruct o; cbn; lia. Qed.

Lemma LineSegmentCircleIntersection_length (line : LineSegment N) (circle : Circle N) :
  (length (all_points_of (Collision2D.LineSegmentCircleIntersection line circle)) <= 2)%nat.
Proof.
  unfold Collision2D.LineSegmentCircleIntersection. cbv zeta.
  destruct (isNaN _); [cbn; lia|].
  repeat match goal with |- context [if ?c then _ else _] => destruct c end; cbn; lia.
Qed.

(** X8. [Polygon.GetEdges] and [Collision2D._GetPolygonEdges] return, for
    every array of vertices, the pairs of each vertex with its successor, the
    last vertex with the first: as many edges as vertices, none for the
    empty array, and the same list from both functions. *)
Theorem GetEdges_closed_pairs :
  forall polygon : list (Point N),
    Polygon.GetEdges polygon = closed_pairs polygon
    /\ Collision2D._GetPolygonEdges polygon = closed_pairs polygon.
Proof.
  intros polygon. rewrite GetEdges_eq, GetPolygonEdges_eq. split; reflexivity.
Qed.

(** X9. [LineSegmentPolygonIntersection] returns the crossing points of the
    edges of the polygon with the segment, in the order of the edges, and
    null when there is none, never an empty array; there are at most as many
    points as vertices. *)
Theorem LineSegmentPolygonIntersection_points :
  forall (line : LineSegment N) (polygon : list (Point N)),
    let crossings :=
      flat_map (fun edge => points_of (Collision2D.LineSegmentsIntersection edge line))
               (closed_pairs polygon) in
    Collision2D.LineSegmentPolygonIntersection line polygon = non_empty crossings
    /\ (length crossings <= length polygon)%nat.
Proof.
  intros line polygon crossings. split.
  - apply LineSegmentPolygonIntersection_eq.
  - unfold crossings.
    rewrite <- (closed_pairs_length polygon), <- (Nat.mul_1_l (length (closed_pairs polygon))).
    apply flat_map_length_le. intros e. apply points_of_length.
Qed.

(** X10. [PolygonsIntersection] returns the crossing points of every edge
    of the first polygon with every edge of the second, in the order of the
    two loops, and null when there is none, never an empty array; there are
    at most as many points as pairs of edges. *)
Theorem PolygonsIntersection_points :
  forall polygon1 polygon2 : list (Point N),
    let crossings :=
      flat_map (fun edge1 =>
                  flat_map (fun edge2 =>
                              points_of (Collision2D.LineSegmentsIntersection edge1 edge2))
                           (closed_pairs polygon2))
               (closed_pairs polygon1) in
    Collision2D.PolygonsIntersection polygon1 polygon2 = non_empty crossings
    /\ (length crossings <= length polygon1 * length polygon2)%nat.
Proof.
  intros polygon1 polygon2 crossings. split.
  - apply PolygonsIntersection_eq.
  - unfold crossings.
    rewrite <- (closed_pairs_length polygon1), Nat.mul_comm.
    apply flat_map_length_le. intros e1.
    rewrite <- (closed_pairs_length polygon2), <- (Nat.mul_1_l (length (closed_pairs polygon2))).
    apply flat_map_length_le. intros e2. apply points_of_length.
Qed.

(** X11. [CirclePolygonIntersection] returns the points
    [LineSegmentCircleIntersection] finds on each edge of the polygon, in the
    order of the edges, and null when there is none, never an empty array;
    there are at most two points for each vertex. *)
Theorem CirclePolygonIntersection_points :
  forall (circle : Circle N) (polygon : list (Point N)),
    let crossings :=
      flat_map (fun edge =>
                  all_points_of (Collision2D.LineSegmentCircleIntersection edge circle))
               (closed_pairs polygon) in
    Collision2D.CirclePolygonIntersection circle polygon = non_empty crossings
    /\ (length crossings <= 2 * length polygon)%nat.
Proof.
  intros circle polygon crossings. split.
  - apply CirclePolygonIntersection_eq.
  - unfold crossings. rewrite <- (closed_pairs_length polygon).
    apply flat_map_length_le. intros e. apply LineSegmentCircleIntersection_length.
Qed.

Lemma PointInsidePolygon_nil (point : Point N) :
  Collision2D.PointInsidePolygon point [] = false.
Proof. reflexivity. Qed.

Lemma flat_map_nil_r {A B C : Type} (l : list A) :
  flat_map (fun _ : A => @nil B) l = [].
Proof. induction l; cbn; auto. Qed.

Lemma PolygonsOverlapping_throws (polygon1 polygon2 : list (Point N)) :
  Collision2D.PolygonsOverlapping polygon1 polygon2 = ThrowTypeError
  <-> polygon1 = [] \/ polygon2 = [].
Proof.
  unfold Collision2D.PolygonsOverlapping.
  rewrite PolygonsIntersection_eq.
  destruct polygon1 as [|p1 l1].
  - cbn. split; [left; reflexivity | reflexivity].
  - destruct polygon2 as [|p2 l2].
    + change (closed_pairs (@nil (Point N))) with (@nil (Point N * Point N)).
      cbn [flat_map]. rewrite (@flat_map_nil_r _ _ unit). cbn.
      split; [right; reflexivity | reflexivity].
    + cbn [nth_error].
      destruct (non_empty _); [|destruct (Collision2D.PointInsidePolygon p1 (p2 :: l2))];
        split; intros E; try discriminate; destruct E; discriminate.
Qed.

Lemma CirclePolygonOverlapping_throws (circle : Circle N) (polygon : list (Point N)) :
  Collision2D.CirclePolygonOverlapping circle polygon = ThrowTypeError
  <-> polygon = [].
Proof.
  unfold Collision2D.CirclePolygonOverlapping.
  destruct polygon as [|p l].
  - cbn. split; reflexivity.
  - cbn [nth_error].
    destruct (Collision2D.CirclePolygonIntersection circle (p :: l));
      [|destruct (Collision2D.PointInsideCircle p circle)];
      split; intros E; discriminate.
Qed.

(** X12. The two overlap tests on polygons throw a TypeError exactly on an
    empty polygon: [PolygonsOverlapping] when one of its two polygons is
    empty, [CirclePolygonOverlapping] when its polygon is empty (the first
    vertex they read is [undefined]). On every other input they return a
    boolean. *)
Theorem Overlapping_throws :
  forall (circle : Circle N) (polygon1 polygon2 : list (Point N)),
    (Collision2D.PolygonsOverlapping polygon1 polygon2 = ThrowTypeError
     <-> polygon1 = [] \/ polygon2 = [])
    /\ (Collision2D.CirclePolygonOverlapping circle polygon1 = ThrowTypeError
        <-> polygon1 = []).
Proof.
  intros circle polygon1 polygon2. split.
  - apply PolygonsOverlapping_throws.
  - apply CirclePolygonOverlapping_throws.
Qed.
End PolygonLoops.

Section OverlappingExact.
Local Open Scope R_scope.

Lemma flat_map_nil_iff {A B : Type} (f : A -> list B) (l : list A) :
  flat_map f l = [] <-> forall a, In a l -> f a = [].
Proof.
  induction l as [|a l IH]; cbn.
  - split; [intros _ a [] | reflexivity].
  - split.
    + intros E. apply app_eq_nil in E. destruct E as [E1 E2].
      intros a' [<- | Hin]; [exact E1 | apply IH; assumption].
    + intros Hall. rewrite (Hall a (or_introl eq_refl)). cbn. apply IH.
      intros a' Hin. apply Hall. right. exact Hin.
Qed.

Lemma PolygonsIntersection_null_symmetric_exact (polygon1 polygon2 : list (Point R)) :
  no_parallel_edges polygon1 polygon2 ->
  (Collision2D.PolygonsIntersection polygon1 polygon2 = None
   <-> Collision2D.PolygonsIntersection polygon2 polygon1 = None).
Proof.
  intros Hnp.
  rewrite !PolygonsIntersection_eq, !non_empty_None, !flat_map_nil_iff. split.
  - intros Hall e2 H2. apply flat_map_nil_iff. intros e1 H1.
    specialize (Hall e1 H1). rewrite flat_map_nil_iff in Hall. specialize (Hall e2 H2).
    rewrite <- (LineSegmentsIntersection_swap_exact e1 e2 (Hnp e1 e2 H1 H2)). exact Hall.
  - intros Hall e1 H1. apply flat_map_nil_iff. intros e2 H2.
    specialize (Hall e2 H2). rewrite flat_map_nil_iff in Hall. specialize (Hall e1 H1).
    rewrite (LineSegmentsIntersection_swap_exact e1 e2 (Hnp e1 e2 H1 H2)). exact Hall.
Qed.

(** X13. [PolygonsOverlapping] in exact arithmetic, for two polygons of
    which no edge of the one has a zero divisor with an edge of the other,
    does not depend on the order of its arguments. *)
Theorem PolygonsOverlapping_symmetric_exact :
  forall polygon1 polygon2 : list (Point R),
    no_parallel_edges polygon1 polygon2 ->
    Collision2D.PolygonsOverlapping polygon1 polygon2
    = Collision2D.PolygonsOverlapping polygon2 polygon1.
Proof.
  intros polygon1 polygon2 Hnp. unfold Collision2D.PolygonsOverlapping.
  pose proof (PolygonsIntersection_null_symmetric_exact polygon1 polygon2 Hnp) as Hnull.
  destruct (Collision2D.PolygonsIntersection polygon1 polygon2) eqn:E12,
           (Collision2D.PolygonsIntersection polygon2 polygon1) eqn:E21.
  - reflexivity.
  - destruct Hnull as [_ Hnull]. specialize (Hnull eq_refl). discriminate.
  - destruct Hnull as [Hnull _]. specialize (Hnull eq_refl). discriminate.
  - destruct polygon1 as [|p1 l1], polygon2 as [|p2 l2]; cbn [nth_error].
    + reflexivity.
    + rewrite PointInsidePolygon_nil. reflexivity.
    + rewrite PointInsidePolygon_nil. reflexivity.
    + destruct (Collision2D.PointInsidePolygon p1 (p2 :: l2)),
               (Collision2D.PointInsidePolygon p2 (p1 :: l1)); reflexivity.
Qed.

(** The theorem at the triangles (0,0), (4,0), (0,4) and (1,1), (3,2),
    (2,5). *)
Lemma PolygonsOverlapping_symmetric_exact_witness :
  Collision2D.PolygonsOverlapping
    [ {| x := 0; y := 0 |}; {| x := 4; y := 0 |}; {| x := 0; y := 4 |} ]
    [ {| x := 1; y := 1 |}; {| x := 3; y := 2 |}; {| x := 2; y := 5 |} ]
  = Collision2D.PolygonsOverlapping
      [ {| x := 1; y := 1 |}; {| x := 3; y := 2 |}; {| x := 2; y := 5 |} ]
      [ {| x := 0; y := 0 |}; {| x := 4; y := 0 |}; {| x := 0; y := 4 |} ].
Proof.
  apply (PolygonsOverlapping_symmetric_exact
           [ {| x := 0; y := 0 |}; {| x := 4; y := 0 |}; {| x := 0; y := 4 |} ]
           [ {| x := 1; y := 1 |}; {| x := 3; y := 2 |}; {| x := 2; y := 5 |} ]).
  intros e1 e2 H1 H2. cbn in H1, H2.
  destruct H1 as [<- | [<- | [<- | []]]], H2 as [<- | [<- | [<- | []]]];
    unfold LineSegmentsIntersection_denominator; cbn; lra.
Defined.
End OverlappingExact.

(* ------------------------------------------------------------------ *)
(** ** PointInsidePolygon *)

Section InsidePolygon.
Context {N : Type} `{Number N}.

Lemma PointInsidePolygon_fold (point : Point N) (polygon : list (Point N)) :
  Collision2D.PointInsidePolygon point polygon
  = fst (fold_left (PointInsidePolygon_step point polygon) (seq 0 (length polygon))
                   (false, (length polygon - 1)%nat)).
Proof.
  unfold Collision2D.PointInsidePolygon. cbv zeta. f_equal.
  apply fold_left_ext_eq. intros [inside j] i. reflexivity.
Qed.

(** When no pass of the loop finds a crossing, [inside] stays as it is. *)
Lemma PointInsidePolygon_loop_no_crossing (point : Point N) (polygon : list (Point N))
    (l : list nat) (inside : bool) (j : nat) :
  (forall i j, (i < length polygon)%nat -> (j < length polygon)%nat ->
     PointInsidePolygon_intersect point polygon i j = false) ->
  Forall (fun i => (i < length polygon)%nat) l -> (j < length polygon)%nat ->
  fst (fold_left (PointInsidePolygon_step point polygon) l (inside, j)) = inside.
Proof.
  intros Hno. revert inside j. induction l as [|i l IH]; intros inside j Hl Hj.
  - reflexivity.
  - inversion Hl as [|? ? Hi Hl']; subst. cbn [fold_left].
    unfold PointInsidePolygon_step at 2. cbn [fst snd].
    rewrite (Hno i j Hi Hj). apply IH; assumption.
Qed.

Lemma seq_below (n : nat) : Forall (fun i => (i < n)%nat) (seq 0 n).
Proof. apply Forall_forall. intros i Hi. apply in_seq in Hi. lia. Qed.

Lemma PointInsidePolygon_no_crossing (point : Point N) (polygon : list (Point N)) :
  (forall i j, (i < length polygon)%nat -> (j < length polygon)%nat ->
     PointInsidePolygon_intersect point polygon i j = false) ->
  Collision2D.PointInsidePolygon point polygon = false.
Proof.
  intros Hno. rewrite PointInsidePolygon_fold.
  destruct polygon as [|p l]; [reflexivity|].
  apply PointInsidePolygon_loop_no_crossing;
    [exact Hno | apply seq_below | cbn [length]; lia].
Qed.

Lemma item_In (polygon : list (Point N)) (i : nat) :
  (i < length polygon)%nat -> In (Collision2D.item polygon i) polygon.
Proof. intros Hi. apply nth_In, Hi. Qed.

(** X14. [PointInsidePolygon], for every kind of number (binary64
    included): when the test [vertex.y > point.y] has the same answer at
    every vertex, so that the polygon lies on one side of the horizontal line
    through the point, no pass of the loop finds a crossing and the answer
    is false. The empty polygon is the case of no vertex. *)
Theorem PointInsidePolygon_one_side_vertical :
  forall (point : Point N) (polygon : list (Point N)) (above : bool),
    Forall (fun vertex => num_lt point.(y) vertex.(y) = above) polygon ->
    Collision2D.PointInsidePolygon point polygon = false.
Proof.
  intros point polygon above Hall. apply PointInsidePolygon_no_crossing.
  intros i j Hi Hj. rewrite Forall_forall in Hall.
  unfold PointInsidePolygon_intersect.
  rewrite (Hall _ (item_In polygon i Hi)), (Hall _ (item_In polygon j Hj)).
  rewrite xorb_nilpotent. reflexivity.
Qed.
End InsidePolygon.

(** The theorem at the triangle (0,0), (3,0), (0,3) and the point (1,5)
    above it, in binary64. *)
Lemma PointInsidePolygon_one_side_vertical_witness :
  Collision2D.PointInsidePolygon (pt 1 5) [pt 0 0; pt 3 0; pt 0 3] = false.
Proof.
  apply (PointInsidePolygon_one_side_vertical (pt 1 5) [pt 0 0; pt 3 0; pt 0 3] false).
  repeat constructor.
Defined.

Section InsidePolygonExact.
Local Open Scope R_scope.


End InsidePolygonExact.

(* ------------------------------------------------------------------ *)
(** ** The operations of Vector2 *)

Section StaticBinary64.
Local Open Scope float_scope.

Lemma js_or_zero_plain (a : float) : plain (js_or a 0).
Proof.
  unfold js_or, plain. cbn [num_eq isNaN IEEE lit float_lit].
  change PrimFloat.zero with 0.
  destruct ((a =? 0) || is_nan a)%bool eqn:E.
  - split; [reflexivity | vm_compute; discriminate].
  - apply orb_false_iff in E. destruct E as [E0 En]. split; [exact En|].
    intros Hz. rewrite FloatAxioms.eqb_spec, Hz in E0. discriminate.
Qed.

Lemma js_or_zero_keeps (a : float) :
  (a =? 0) = false -> is_nan a = false -> js_or a 0 = a.
Proof.
  intros E0 En. unfold js_or. cbn [num_eq isNaN IEEE lit float_lit].
  change PrimFloat.zero with 0. rewrite E0, En. reflexivity.
Qed.

Lemma js_or_zero_replaces (a : float) :
  (a =? 0) = true \/ is_nan a = true -> js_or a 0 = 0.
Proof.
  intros Ha. unfold js_or. cbn [num_eq isNaN IEEE lit float_lit].
  change PrimFloat.zero with 0.
  destruct Ha as [-> | ->]; [reflexivity | rewrite orb_true_r; reflexivity].
Qed.

Lemma flat_map_singleton {A B : Type} (f : A -> B) (l : list A) :
  flat_map (fun a => [f a]) l = map f l.
Proof. induction l as [|a l IH]; cbn; [reflexivity | rewrite IH; reflexivity]. Qed.

Lemma ConvertArray_map (points : list (Point float)) :
  Vector2.ConvertArray points = map Vector2.ConvertObject points.
Proof.
  unfold Vector2.ConvertArray.
  rewrite (fold_left_app_flat_map
             (fun i => [Vector2.new (nth i points (Vector2.new (lit 0) (lit 0))).(x)
                                    (nth i points (Vector2.new (lit 0) (lit 0))).(y)])).
  cbn [app].
  rewrite (flat_map_nth_seq (fun p : Point float => [Vector2.new p.(x) p.(y)])).
  apply flat_map_singleton.
Qed.

(** X17. The static operations of [Vector2] in binary64. Each returns what
    the instance method of the same name leaves in its receiver, passed
    through the constructor: the same two numbers, except that a component
    that is NaN or a zero of either sign is replaced by +0. No static result
    has a NaN or a negative zero as a component. [ConvertObject] and
    [clone] are the constructor alone, and [ConvertArray] is [ConvertObject]
    on each element. *)
Theorem Vector2_static_results_plain :
  forall (sin cos : float -> float) (v1 v2 : Point float) (s : float)
         (points : list (Point float)),
    Forall (fun r : Point float * Point float =>
              fst r = Vector2.clone (snd r)
              /\ plain (fst r).(x) /\ plain (fst r).(y))
           (@static_and_instance float IEEE (IEEE_Math sin cos) v1 v2 s)
    /\ (forall a : float, (a =? 0) = false -> is_nan a = false -> js_or a 0 = a)
    /\ (forall a : float, (a =? 0) = true \/ is_nan a = true -> js_or a 0 = 0)
    /\ Vector2.ConvertArray points = map Vector2.ConvertObject points.
Proof.
  intros sin cos v1 v2 s points. split; [|split; [|split]].
  - unfold static_and_instance.
    repeat (apply Forall_cons; [split; [reflexivity | split; apply js_or_zero_plain] |]).
    apply Forall_nil.
  - apply js_or_zero_keeps.
  - apply js_or_zero_replaces.
  - apply ConvertArray_map.
Qed.
End StaticBinary64.

Section VectorExact.
Local Open Scope R_scope.

Lemma sin_cos_square (a : R) : sin a * sin a + cos a * cos a = 1.
Proof. pose proof (sin2_cos2 a) as E. unfold Rsqr in E. exact E. Qed.

Lemma new_exact (a b : R) : Vector2.new a b = {| x := a; y := b |}.
Proof. unfold Vector2.new. cbn [lit Exact]. rewrite !exact_js_or_zero. reflexivity. Qed.




(** X20. [setRandomDirection] in exact arithmetic, the two values of
    [Math.random()] being [r1] and [r2]: unless both are exactly 1/2, the
    receiver ends with length 1, whatever it held before. *)
Theorem setRandomDirection_exact :
  forall (this : Point R) (r1 r2 : R),
    r1 <> 1 / 2 \/ r2 <> 1 / 2 ->
    Vector2.length (Vector2.setRandomDirection this r1 r2) = 1.
Proof.
  intros this r1 r2 Hr. unfold Vector2.setRandomDirection. cbv zeta. cbn [x y].
  apply Normalize_unit_exact.
  unfold Vector2.getRandomArbitrary. cbn [x y num_add num_sub num_mul Exact lit].
  destruct Hr as [Hr | Hr]; [left | right]; intros E; apply Hr; lra.
Qed.

(** The theorem at the draws 1/4 and 1/2. *)
Lemma setRandomDirection_exact_witness :
  Vector2.length (Vector2.setRandomDirection {| x := 0; y := 0 |} (1 / 4) (1 / 2)) = 1.
Proof.
  apply (setRandomDirection_exact {| x := 0; y := 0 |} (1 / 4) (1 / 2)). left. lra.
Defined.
End VectorExact.

(* ------------------------------------------------------------------ *)
(** ** TranslateBy, Rotate and Scale *)

Section VertexLoop.
Context {N : Type} `{Number N} {X : Type}.
Variable body : Polygon.store (N := N) -> Polygon.ref -> Polygon.store (N := N).
Variable ext : Polygon.store (N := N) -> X.
Variable upd : X -> Point N -> Point N.
Variable polygon : list Polygon.ref.
Hypothesis body_other : forall h v r, r <> v -> body h v r = h r.
Hypothesis body_same : forall h v, In v polygon -> body h v v = upd (ext h) (h v).
Hypothesis body_ext : forall h v, In v polygon -> ext (body h v) = ext h.

Lemma vertex_loop_other (l : list Polygon.ref) :
  forall (h : Polygon.store) (r : Polygon.ref),
    ~ In r l -> fold_left body l h r = h r.
Proof.
  induction l as [|v l IH]; intros h r Hnot; cbn.
  - reflexivity.
  - rewrite IH by (intros Hin; apply Hnot; right; exact Hin).
    apply body_other. intros Heq. apply Hnot. left. symmetry. exact Heq.
Qed.

Lemma vertex_loop_vertex (l : list Polygon.ref) :
  forall (h : Polygon.store) (r : Polygon.ref),
    incl l polygon -> NoDup l -> In r l ->
    fold_left body l h r = upd (ext h) (h r).
Proof.
  induction l as [|v l IH]; intros h r Hincl Hnodup Hin; cbn.
  - destruct Hin.
  - inversion Hnodup as [|v' l' Hv Hrest]; subst.
    assert (Hvp : In v polygon) by (apply Hincl; left; reflexivity).
    assert (Hincl' : incl l polygon) by (intros a Ha; apply Hincl; right; exact Ha).
    destruct Hin as [Heq|Hin].
    + subst r. rewrite vertex_loop_other by exact Hv. apply body_same. exact Hvp.
    + rewrite (IH (body h v) r Hincl' Hrest Hin).
      rewrite (body_ext h v Hvp).
      rewrite (body_other h v r) by (intros Heq; subst r; contradiction).
      reflexivity.
Qed.

Lemma vertex_loop_deref (h : Polygon.store) :
  NoDup polygon ->
  Polygon.deref (fold_left body polygon h) polygon
  = map (upd (ext h)) (Polygon.deref h polygon).
Proof.
  intros Hnodup. unfold Polygon.deref. rewrite map_map. apply map_ext_in.
  intros r Hin. apply vertex_loop_vertex; [apply incl_refl | exact Hnodup | exact Hin].
Qed.
End VertexLoop.

Section IndexLoop.
Context {A B : Type}.

Lemma fold_left_map_arg (f : A -> B -> A) (g : nat -> B) (l : list nat) (a : A) :
  fold_left (fun a i => f a (g i)) l a = fold_left f (map g l) a.
Proof. revert a. induction l as [|i l IH]; intros a; cbn; [reflexivity | apply IH]. Qed.

Lemma fold_left_index (f : A -> B -> A) (l : list B) (d : B) (a : A) :
  fold_left (fun a i => f a (nth i l d)) (seq 0 (length l)) a = fold_left f l a.
Proof. rewrite (fold_left_map_arg f (fun i => nth i l d)), map_nth_seq. reflexivity. Qed.
End IndexLoop.

Section Generic.
Context {N : Type} `{Number N}.

Lemma shift_self (h : Polygon.store) (v : Polygon.ref) :
  Polygon.shift v h v v
  = {| x := num_add (h v).(x) (h v).(x); y := num_add (h v).(y) (h v).(y) |}.
Proof. unfold Polygon.shift. rewrite set_y_same, !set_x_same. reflexivity. Qed.

(** X21. [TranslateBy] when the vector is itself a vertex object of the
    polygon (distinct vertex objects, any kind of number): the vertices
    before it in the array are moved by the vector, the vector is added to
    itself, and the vertices after it are moved by the doubled vector. *)
Theorem TranslateBy_vector_is_vertex :
  forall (h : Polygon.store) (before after : list Polygon.ref) (vector : Polygon.ref),
    NoDup (before ++ vector :: after) ->
    let h' := Polygon.TranslateBy h (before ++ vector :: after) vector in
    let doubled := {| x := num_add (h vector).(x) (h vector).(x);
                      y := num_add (h vector).(y) (h vector).(y) |} in
    h' vector = doubled
    /\ (forall r, In r before ->
          h' r = {| x := num_add (h r).(x) (h vector).(x);
                    y := num_add (h r).(y) (h vector).(y) |})
    /\ (forall r, In r after ->
          h' r = {| x := num_add (h r).(x) doubled.(x);
                    y := num_add (h r).(y) doubled.(y) |}).
Proof.
  intros h before after vector Hnodup h' doubled.
  pose proof (NoDup_remove_2 _ _ _ Hnodup) as Hvec.
  assert (Hvb : ~ In vector before) by (intros Hc; apply Hvec, in_or_app; left; exact Hc).
  assert (Hva : ~ In vector after) by (intros Hc; apply Hvec, in_or_app; right; exact Hc).
  pose proof (NoDup_remove_1 _ _ _ Hnodup) as Hrest.
  assert (Hnb : NoDup before) by (apply NoDup_app_remove_r in Hrest; exact Hrest).
  assert (Hna : NoDup after) by (apply NoDup_app_remove_l in Hrest; exact Hrest).
  assert (Hdisj : forall r, In r before -> ~ In r after).
  { intros r Hb Ha. apply NoDup_app_remove_r in Hnodup as Hb'.
    clear Hb'. revert Hnodup Hb Ha. clear. intros Hnodup Hb Ha.
    induction before as [|b before IH]; [destruct Hb|].
    cbn in Hnodup. inversion Hnodup as [|? ? Hnot Hnd]; subst.
    destruct Hb as [-> | Hb].
    - apply Hnot, in_or_app. right. right. exact Ha.
    - apply IH; assumption. }
  set (h1 := fold_left (Polygon.shift vector) before h).
  set (h2 := Polygon.shift vector h1 vector).
  assert (Hh' : h' = fold_left (Polygon.shift vector) after h2).
  { unfold h', Polygon.TranslateBy. rewrite fold_left_app. reflexivity. }
  assert (H1v : h1 vector = h vector) by (apply fold_shift_other; exact Hvb).
  assert (H2v : h2 vector = doubled).
  { unfold h2. rewrite shift_self, H1v. reflexivity. }
  split; [|split].
  - rewrite Hh', fold_shift_other by exact Hva. exact H2v.
  - intros r Hr. rewrite Hh'.
    rewrite fold_shift_other by (apply Hdisj; exact Hr).
    unfold h2. rewrite shift_other by (intros Heq; subst r; contradiction).
    unfold h1. apply fold_shift_vertex; assumption.
  - intros r Hr. rewrite Hh'.
    rewrite (fold_shift_vertex vector after h2 r Hna Hva Hr), H2v.
    unfold h2. rewrite shift_other by (intros Heq; subst r; contradiction).
    unfold h1. rewrite fold_shift_other; [reflexivity|].
    intros Hb. exact (Hdisj r Hb Hr).
Qed.
End Generic.

(** The theorem at the triangle (0,0), (3,0), (0,3) in binary64, the vector
    being its second vertex. *)
Lemma TranslateBy_vector_is_vertex_witness :
  Polygon.TranslateBy triangle_store [0; 1; 2]%nat 1%nat 1%nat = pt 6 0
  /\ Polygon.TranslateBy triangle_store [0; 1; 2]%nat 1%nat 0%nat = pt 3 0
  /\ Polygon.TranslateBy triangle_store [0; 1; 2]%nat 1%nat 2%nat = pt 6 3.
Proof.
  destruct (TranslateBy_vector_is_vertex triangle_store [0%nat] [2%nat] 1%nat)
    as [Hv [Hb Ha]].
  - repeat constructor; cbn; intuition discriminate.
  - split; [exact Hv | split].
    + exact (Hb 0%nat (or_introl eq_refl)).
    + exact (Ha 2%nat (or_introl eq_refl)).
Defined.

Section EdgeSums.
Local Open Scope R_scope.

Lemma edge_sum_map (F : Point R -> Point R -> R) (f : Point R -> Point R)
    (polygon : list (Point R)) :
  edge_sum F (map f polygon) = edge_sum (fun p q => F (f p) (f q)) polygon.
Proof.
  unfold edge_sum. rewrite length_map. set (n := length polygon).
  apply Rsum_map_ext_in. intros i Hin. apply in_seq in Hin.
  assert (Hn : (0 < n)%nat) by lia.
  assert (Hsucc : ((i + 1) mod n < n)%nat) by (apply Nat.mod_upper_bound; lia).
  unfold Polygon.item.
  rewrite (nth_indep (map f polygon) Polygon.origin (f Polygon.origin))
    by (rewrite length_map; fold n; lia).
  rewrite (nth_indep (map f polygon) Polygon.origin (f Polygon.origin) (n := (i + 1) mod n))
    by (rewrite length_map; fold n; lia).
  rewrite !map_nth. reflexivity.
Qed.

Lemma edge_sum_zero (polygon : list (Point R)) : edge_sum (fun _ _ => 0) polygon = 0.
Proof. unfold edge_sum. apply Rsum_map_zero. Qed.

(** [F'] is a combination of [F] and [G] up to a difference that cancels
    around the polygon. *)
Lemma edge_sum_combination (F F' G : Point R -> Point R -> R) (g : Point R -> R)
    (a b : R) (polygon : list (Point R)) :
  (forall p q, F' p q = a * F p q + b * G p q + (g q - g p)) ->
  edge_sum F' polygon = a * edge_sum F polygon + b * edge_sum G polygon.
Proof.
  intros Hpt.
  rewrite (edge_sum_linear (fun p q => a * F p q) F' G g b polygon Hpt).
  rewrite (edge_sum_linear (fun _ _ => 0) (fun p q => a * F p q) F (fun _ => 0) a polygon)
    by (intros; ring).
  rewrite edge_sum_zero. ring.
Qed.

End EdgeSums.

Section TranslateByExact.
Local Open Scope R_scope.


End TranslateByExact.

Section RotateExact.
Local Open Scope R_scope.

Lemma rotate_vertex_other (cos sin : R) (point : Polygon.ref) (h : Polygon.store (N := R))
    (v r : Polygon.ref) :
  r <> v -> Polygon.rotate_vertex cos sin point h v r = h r.
Proof.
  intros Hne. unfold Polygon.rotate_vertex. cbv zeta.
  rewrite set_y_other, set_x_other; auto.
Qed.

Lemma rotate_vertex_same (cos sin : R) (point : Polygon.ref) (h : Polygon.store (N := R))
    (v : Polygon.ref) :
  v <> point ->
  Polygon.rotate_vertex cos sin point h v v
  = {| x := (h point).(x) + (((h v).(x) - (h point).(x)) * cos
                             - ((h v).(y) - (h point).(y)) * sin);
       y := (h point).(y) + (((h v).(x) - (h point).(x)) * sin
                             + ((h v).(y) - (h point).(y)) * cos) |}.
Proof.
  intros Hne. unfold Polygon.rotate_vertex. cbv zeta.
  rewrite set_y_same, !set_x_same. cbn [x y].
  rewrite (set_x_other h v _ point) by (intros Heq; apply Hne; symmetry; exact Heq).
  reflexivity.
Qed.

Lemma RotateAround_zero (v center : Point R) :
  Vector2.RotateAround v center 0 = v.
Proof.
  destruct v as [vx vy], center as [cx cy].
  unfold Vector2.RotateAround. cbv zeta. rewrite new_exact.
  cbn [x y num_add num_sub num_mul Math_cos Math_sin Exact Exact_Math].
  rewrite cos_0, sin_0. f_equal; ring.
Qed.

Lemma cross_term_rotate (center : Point R) (angle : R) (p q : Point R) :
  cross_term (Vector2.RotateAround p center angle) (Vector2.RotateAround q center angle)
  = 1 * cross_term p q + 0 * cross_term p q
    + ((fun p => center.(x) * ((Vector2.RotateAround p center angle).(y) - p.(y))
                 - center.(y) * ((Vector2.RotateAround p center angle).(x) - p.(x))) q
       - (fun p => center.(x) * ((Vector2.RotateAround p center angle).(y) - p.(y))
                   - center.(y) * ((Vector2.RotateAround p center angle).(x) - p.(x))) p).
Proof.
  destruct p as [px py], q as [qx qy], center as [cx cy].
  unfold Vector2.RotateAround, cross_term. cbv zeta beta. rewrite !new_exact.
  cbn [x y num_add num_sub num_mul Math_cos Math_sin Exact Exact_Math].
  pose proof (sin_cos_square angle) as E.
  set (c := cos angle) in *. set (s := sin angle) in *.
  transitivity (((px - cx) * (qy - cy) - (py - cy) * (qx - cx)) * (s * s + c * c)
                + cx * (((qx - cx) * s + (qy - cy) * c) - ((px - cx) * s + (py - cy) * c))
                - cy * (((qx - cx) * c - (qy - cy) * s) - ((px - cx) * c - (py - cy) * s))).
  - ring.
  - rewrite E. ring.
Qed.


End RotateExact.

Section ScaleWrites.
Context {N : Type} `{Number N}.

Lemma scale_vertex_other (sx sy : N) (pivot : Polygon.store (N := N) -> Point N)
    (h : Polygon.store (N := N)) (v r : Polygon.ref) :
  r <> v -> Polygon.scale_vertex sx sy pivot h v r = h r.
Proof.
  intros Hne. unfold Polygon.scale_vertex. cbv zeta.
  rewrite set_y_other, set_x_other; auto.
Qed.

Lemma scale_vertex_same (sx sy : N) (pivot : Polygon.store (N := N) -> Point N)
    (h : Polygon.store (N := N)) (v : Polygon.ref) :
  pivot (Polygon.set_x h v
           (num_add (pivot h).(x) (num_mul (num_sub (h v).(x) (pivot h).(x)) sx)))
  = pivot h ->
  Polygon.scale_vertex sx sy pivot h v v = scale_point (pivot h) sx sy (h v).
Proof.
  intros Hpivot. unfold Polygon.scale_vertex, scale_point. cbv zeta.
  rewrite set_y_same, !set_x_same, Hpivot. reflexivity.
Qed.

(** [Scale] at factors that are both 1 writes nothing. *)
Lemma Scale_unit (h : Polygon.store (N := N)) (polygon : list Polygon.ref)
    (scaleX scaleY : N) (point : option Polygon.ref) :
  num_eq scaleX (lit 1) && num_eq scaleY (lit 1) = true ->
  Polygon.Scale h polygon scaleX scaleY point = h.
Proof. intros Eone. unfold Polygon.Scale. rewrite Eone. reflexivity. Qed.

Lemma Scale_frame (h : Polygon.store (N := N)) (polygon : list Polygon.ref)
    (scaleX scaleY : N) (point : option Polygon.ref) (r : Polygon.ref) :
  ~ In r polygon -> Polygon.Scale h polygon scaleX scaleY point r = h r.
Proof.
  intros Hr. unfold Polygon.Scale.
  destruct (num_eq scaleX (lit 1) && num_eq scaleY (lit 1)); [reflexivity|].
  unfold Polygon.item_ref.
  rewrite (fold_left_index (Polygon.scale_vertex scaleX scaleY _)).
  apply (vertex_loop_other (Polygon.scale_vertex scaleX scaleY _)); [|exact Hr].
  intros h0 v r0 Hne. apply scale_vertex_other. exact Hne.
Qed.

Lemma Scale_vertices (h : Polygon.store (N := N)) (polygon : list Polygon.ref)
    (scaleX scaleY : N) (point : option Polygon.ref) (r : Polygon.ref) :
  NoDup polygon ->
  (forall p, point = Some p -> ~ In p polygon) ->
  num_eq scaleX (lit 1) && num_eq scaleY (lit 1) = false ->
  In r polygon ->
  Polygon.Scale h polygon scaleX scaleY point r
  = scale_point (match point with
                 | Some p => h p
                 | None => Polygon.GetCenterPoint (Polygon.deref h polygon)
                 end) scaleX scaleY (h r).
Proof.
  intros Hnodup Hpoint Eone Hr. unfold Polygon.Scale. rewrite Eone.
  unfold Polygon.item_ref.
  rewrite (fold_left_index (Polygon.scale_vertex scaleX scaleY _)).
  destruct point as [p|].
  - apply (vertex_loop_vertex (Polygon.scale_vertex scaleX scaleY (fun h' => h' p))
             (fun h0 => h0 p) (fun c q => scale_point c scaleX scaleY q) polygon).
    + intros h0 v r0 Hne. apply scale_vertex_other. exact Hne.
    + intros h0 v Hv. apply (scale_vertex_same scaleX scaleY (fun h' => h' p)).
      apply set_x_other. intros Heq. subst v. exact (Hpoint p eq_refl Hv).
    + intros h0 v Hv. apply scale_vertex_other.
      intros Heq. subst v. exact (Hpoint p eq_refl Hv).
    + apply incl_refl.
    + exact Hnodup.
    + exact Hr.
  - set (pivot := Polygon.GetCenterPoint (Polygon.deref h polygon)).
    apply (vertex_loop_vertex (Polygon.scale_vertex scaleX scaleY (fun _ => pivot))
             (fun _ => tt) (fun _ q => scale_point pivot scaleX scaleY q) polygon).
    + intros h0 v r0 Hne. apply scale_vertex_other. exact Hne.
    + intros h0 v Hv. apply (scale_vertex_same scaleX scaleY (fun _ => pivot)).
      reflexivity.
    + reflexivity.
    + apply incl_refl.
    + exact Hnodup.
    + exact Hr.
Qed.

(** X24. [Polygon.Scale], for every kind of number (binary64 included) and
    a polygon of distinct vertex objects, the pivot object, when one is
    given, being none of them. When both factors are 1 nothing is written.
    Otherwise every vertex [p] ends as
    [(c.x + (p.x - c.x) * scaleX, c.y + (p.y - c.y) * scaleY)], [c] being
    the pivot, or the centroid [GetCenterPoint] computes from the polygon
    before the loop when no pivot is given. No object other than the
    vertices is written. *)
Theorem Scale_writes :
  forall (h : Polygon.store (N := N)) (polygon : list Polygon.ref) (scaleX scaleY : N)
         (point : option Polygon.ref),
    NoDup polygon ->
    (forall r, point = Some r -> ~ In r polygon) ->
    let pivot := match point with
                 | Some r => h r
                 | None => Polygon.GetCenterPoint (Polygon.deref h polygon)
                 end in
    let h' := Polygon.Scale h polygon scaleX scaleY point in
    (num_eq scaleX (lit 1) && num_eq scaleY (lit 1) = true -> h' = h)
    /\ (num_eq scaleX (lit 1) && num_eq scaleY (lit 1) = false ->
        forall r, In r polygon -> h' r = scale_point pivot scaleX scaleY (h r))
    /\ (forall r, ~ In r polygon -> h' r = h r).
Proof.
  intros h polygon scaleX scaleY point Hnodup Hpoint pivot h'. split; [|split].
  - apply Scale_unit.
  - intros Eone r Hr. apply Scale_vertices; assumption.
  - intros r Hr. apply Scale_frame. exact Hr.
Qed.
End ScaleWrites.

(** The theorem at the triangle (0,0), (3,0), (0,3) in binary64, the
    factors 2 and 3 and the pivot (7,7): the vertex (3,0) ends as
    (-1,-14). *)
Lemma Scale_writes_witness :
  Polygon.Scale triangle_store [0; 1; 2]%nat 2%float 3%float (Some 3%nat) 1%nat
  = pt (-1) (-14).
Proof.
  destruct (Scale_writes (N := float) triangle_store [0; 1; 2]%nat 2%float 3%float
              (Some 3%nat)) as [_ [Hmap _]].
  - repeat constructor; cbn; intuition discriminate.
  - intros r E. injection E as <-. cbn. intuition discriminate.
  - rewrite (Hmap eq_refl 1%nat) by (cbn; auto). vm_compute. reflexivity.
Defined.

Section ScaleExact.
Local Open Scope R_scope.

Lemma scale_point_one (c p : Point R) : scale_point c 1 1 p = p.
Proof.
  destruct p as [px py]. unfold scale_point. cbn [x y num_add num_sub num_mul Exact].
  f_equal; ring.
Qed.

Lemma Scale_deref (h : Polygon.store (N := R)) (polygon : list Polygon.ref)
    (scaleX scaleY : R) (point : option Polygon.ref) :
  NoDup polygon ->
  (forall r, point = Some r -> ~ In r polygon) ->
  let pivot := match point with
               | Some r => h r
               | None => Polygon.GetCenterPoint (Polygon.deref h polygon)
               end in
  Polygon.deref (Polygon.Scale h polygon scaleX scaleY point) polygon
  = map (scale_point pivot scaleX scaleY) (Polygon.deref h polygon).
Proof.
  intros Hnodup Hpoint pivot. unfold Polygon.deref. rewrite map_map.
  destruct (num_eq scaleX (lit 1) && num_eq scaleY (lit 1)) eqn:Eone.
  - rewrite (Scale_unit _ _ _ _ _ Eone). apply map_ext. intros r.
    apply andb_true_iff in Eone. destruct Eone as [Ex Ey].
    cbn [num_eq Exact lit] in Ex, Ey.
    destruct (Req_dec_T scaleX 1) as [-> |]; [|discriminate].
    destruct (Req_dec_T scaleY 1) as [-> |]; [|discriminate].
    symmetry. apply scale_point_one.
  - apply map_ext_in. intros r Hr. apply Scale_vertices; assumption.
Qed.

Lemma cross_term_scale (c : Point R) (sx sy : R) (p q : Point R) :
  cross_term (scale_point c sx sy p) (scale_point c sx sy q)
  = (sx * sy) * cross_term p q + 0 * cross_term p q
    + ((fun p => c.(x) * (1 - sx) * sy * p.(y) - c.(y) * (1 - sy) * sx * p.(x)) q
       - (fun p => c.(x) * (1 - sx) * sy * p.(y) - c.(y) * (1 - sy) * sx * p.(x)) p).
Proof.
  destruct p as [px py], q as [qx qy], c as [cx cy].
  unfold scale_point, cross_term. cbn [x y num_add num_sub num_mul Exact]. ring.
Qed.

Lemma GetArea_scale (c : Point R) (sx sy : R) (polygon : list (Point R)) :
  Polygon.GetArea (map (scale_point c sx sy) polygon) (Some true)
  = sx * sy * Polygon.GetArea polygon (Some true).
Proof.
  rewrite !GetArea_edge_sum, !area_term_cross, edge_sum_map.
  rewrite (edge_sum_combination cross_term _ cross_term _ (sx * sy) 0 _
             (cross_term_scale c sx sy)).
  field.
Qed.


End ScaleExact.

(* ------------------------------------------------------------------ *)
(** ** The extensions of Math *)

Section MathExact.
Local Open Scope R_scope.

(** X26. [Math.clamp] in exact arithmetic: the result is never below
    [min]; when [min <= max] it is not above [max] and a value inside the
    range is returned as it is; when the bounds are given the wrong way
    round, [max < min], the result is [min] for every value. *)
Theorem clamp_exact :
  forall value min max : R,
    min <= MathExt.clamp value min max
    /\ (min <= max -> MathExt.clamp value min max <= max)
    /\ (min <= value <= max -> MathExt.clamp value min max = value)
    /\ (max < min -> MathExt.clamp value min max = min).
Proof.
  intros value min max. unfold MathExt.clamp. cbn [Math_max Math_min Exact_Order].
  unfold Rmax, Rmin.
  destruct (Rle_dec max value), (Rle_dec min max), (Rle_dec min value);
    repeat split; intros; lra.
Qed.




End MathExact.

Section PowerOfTwo.
Local Open Scope Z_scope.

Lemma ToInt32_range (z : Z) : -2147483648 <= MathExt.ToInt32 z < 2147483648.
Proof.
  unfold MathExt.ToInt32.
  pose proof (Z.mod_pos_bound (z + 2147483648) 4294967296 eq_refl). lia.
Qed.

Lemma ToInt32_small (z : Z) : -2147483648 <= z < 2147483648 -> MathExt.ToInt32 z = z.
Proof.
  intros Hz. unfold MathExt.ToInt32. rewrite Z.mod_small by lia. lia.
Qed.

Lemma ToInt32_pred (z : Z) :
  MathExt.ToInt32 (z - 1)
  = if MathExt.ToInt32 z =? -2147483648 then 2147483647 else MathExt.ToInt32 z - 1.
Proof.
  unfold MathExt.ToInt32.
  replace (z - 1 + 2147483648) with ((z + 2147483648) - 1) by lia.
  rewrite <- Zminus_mod_idemp_l.
  pose proof (Z.mod_pos_bound (z + 2147483648) 4294967296 eq_refl) as Hu.
  set (u := (z + 2147483648) mod 4294967296) in *.
  destruct (Z.eqb_spec (u - 2147483648) (-2147483648)) as [E | E].
  - replace u with 0 by lia. reflexivity.
  - rewrite Z.mod_small by lia. lia.
Qed.

Lemma land_pred_power (k : Z) : 0 <= k -> Z.land (2 ^ k) (2 ^ k - 1) = 0.
Proof.
  intros Hk. replace (2 ^ k - 1) with (Z.ones k) by (rewrite Z.ones_equiv; lia).
  rewrite Z.land_ones by exact Hk. apply Z_mod_same_full.
Qed.

Lemma land_pred_zero_power (w : Z) :
  0 < w -> Z.land w (w - 1) = 0 -> w = 2 ^ Z.log2 w.
Proof.
  intros Hw Hland.
  destruct (Z.eq_dec w (2 ^ Z.log2 w)) as [E | E]; [exact E | exfalso].
  pose proof (Z.log2_spec w Hw) as [Hlo Hhi].
  pose proof (Z.log2_nonneg w) as Hk.
  assert (Hlog : Z.log2 (w - 1) = Z.log2 w).
  { apply Z.log2_unique; [exact Hk | lia]. }
  assert (Hbit : Z.testbit (Z.land w (w - 1)) (Z.log2 w) = true).
  { rewrite Z.land_spec. rewrite (Z.bit_log2 w Hw).
    rewrite <- Hlog. rewrite Z.bit_log2 by lia. reflexivity. }
  rewrite Hland, Z.testbit_0_l in Hbit. discriminate.
Qed.

(** X29. [Math.isPowerOfTwo] at a whole number [value] that a double holds
    exactly together with [value - 1]. The answer is true exactly when
    [value] is not 0 and its low 32 bits, read as a signed integer, are a
    power of two from 2^0 to 2^30, or 0, or -2^31. Between -2^31 and 2^31
    the low 32 bits are the value itself, so there the answer is true
    exactly for the powers of two; -2^31 and the multiples of 2^32 other than
    0 are answered true as well. *)
Theorem isPowerOfTwo_characterisation :
  forall value : Z,
    - 2 ^ 53 < value <= 2 ^ 53 ->
    (MathExt.isPowerOfTwo value = true
     <-> value <> 0
         /\ (MathExt.ToInt32 value = 0
             \/ MathExt.ToInt32 value = - 2 ^ 31
             \/ exists k, 0 <= k < 31 /\ MathExt.ToInt32 value = 2 ^ k))
    /\ (- 2 ^ 31 <= value < 2 ^ 31 -> MathExt.ToInt32 value = value).
Proof.
  intros value _. split; [|apply ToInt32_small].
  unfold MathExt.isPowerOfTwo. rewrite ToInt32_pred.
  pose proof (ToInt32_range value) as Hw.
  set (w := MathExt.ToInt32 value) in *.
  rewrite andb_true_iff, negb_true_iff, Z.eqb_eq, Z.eqb_neq.
  change (- 2 ^ 31) with (-2147483648).
  destruct (Z.eqb_spec w (-2147483648)) as [Emin | Emin].
  - rewrite Emin. split.
    + intros [_ Hv]. split; [exact Hv | right; left; reflexivity].
    + intros [Hv _]. split; [reflexivity | exact Hv].
  - destruct (Z.lt_trichotomy w 0) as [Hneg | [Hzero | Hpos]].
    + split.
      * intros [Hland _]. exfalso.
        assert (Z.land w (w - 1) < 0) by (apply Z.land_neg; lia). lia.
      * intros [_ [H0 | [Hm | [k [Hk Hp]]]]]; lia.
    + rewrite Hzero. split.
      * intros [_ Hv]. split; [exact Hv | left; reflexivity].
      * intros [Hv _]. split; [reflexivity | exact Hv].
    + split.
      * intros [Hland Hv]. split; [exact Hv | right; right].
        exists (Z.log2 w). split.
        -- split; [apply Z.log2_nonneg|].
           apply Z.log2_lt_pow2; [exact Hpos | change (2 ^ 31) with 2147483648; lia].
        -- apply land_pred_zero_power; assumption.
      * intros [Hv [H0 | [Hm | [k [Hk Hp]]]]]; try lia.
        split; [|exact Hv]. rewrite Hp. apply land_pred_power. lia.
Qed.

(** The theorem at the value 8. *)
Lemma isPowerOfTwo_characterisation_witness :
  MathExt.isPowerOfTwo 8 = true
  <-> 8 <> 0
      /\ (MathExt.ToInt32 8 = 0
          \/ MathExt.ToInt32 8 = - 2 ^ 31
          \/ exists k, 0 <= k < 31 /\ MathExt.ToInt32 8 = 2 ^ k).
Proof.
  apply (isPowerOfTwo_characterisation 8). lia.
Defined.
End PowerOfTwo.

(* ------------------------------------------------------------------ *)
(** ** generateUUID *)

Section UUID.
Local Open Scope Z_scope.

Lemma lut_two_digits (i : Z) :
  0 <= i < 256 ->
  MathExt.lut i
  = String.String (MathExt.hex_upper (i / 16))
      (String.String (MathExt.hex_upper (i mod 16)) String.EmptyString).
Proof.
  intros Hi. unfold MathExt.lut, MathExt.toString16_toUpperCase.
  destruct (Z.leb_spec 0 i); [|lia]. destruct (Z.ltb_spec i 256); [|lia]. cbn [andb].
  destruct (Z.ltb_spec i 16).
  - rewrite Z.div_small, Z.mod_small by lia. reflexivity.
  - reflexivity.
Qed.

Lemma land_mask_range (a : Z) (n : Z) : 0 <= n -> 0 <= Z.land a (Z.ones n) < 2 ^ n.
Proof.
  intros Hn. rewrite Z.land_ones by exact Hn. apply Z.mod_pos_bound.
  apply Z.pow_pos_nonneg; lia.
Qed.

Lemma Z_range_forall (P : Z -> bool) (n : nat) :
  forallb P (map Z.of_nat (seq 0 n)) = true ->
  forall t, 0 <= t < Z.of_nat n -> P t = true.
Proof.
  intros Hall t Ht. rewrite forallb_forall in Hall. apply Hall.
  rewrite <- (Z2Nat.id t) by lia. apply in_map, in_seq. lia.
Qed.

Lemma version_byte (t : Z) :
  0 <= t < 16 -> 0 <= Z.lor t 64 < 256 /\ Z.lor t 64 / 16 = 4.
Proof.
  intros Ht.
  pose proof (Z_range_forall
                (fun t => (0 <=? Z.lor t 64) && (Z.lor t 64 <? 256) && (Z.lor t 64 / 16 =? 4))
                16 eq_refl t Ht) as Hp.
  cbv beta in Hp. rewrite !andb_true_iff in Hp. destruct Hp as [[H0 H1] H2].
  apply Z.leb_le in H0. apply Z.ltb_lt in H1. apply Z.eqb_eq in H2. lia.
Qed.

Lemma variant_byte (t : Z) :
  0 <= t < 64 -> 0 <= Z.lor t 128 < 256 /\ 8 <= Z.lor t 128 / 16 <= 11.
Proof.
  intros Ht.
  pose proof (Z_range_forall
                (fun t => (0 <=? Z.lor t 128) && (Z.lor t 128 <? 256)
                          && (8 <=? Z.lor t 128 / 16) && (Z.lor t 128 / 16 <=? 11))
                64 eq_refl t Ht) as Hp.
  cbv beta in Hp. rewrite !andb_true_iff in Hp. destruct Hp as [[[H0 H1] H2] H3].
  apply Z.leb_le in H0. apply Z.ltb_lt in H1. apply Z.leb_le in H2. apply Z.leb_le in H3.
  lia.
Qed.

(** X30. [Math.generateUUID], for every value of the four random 32-bit
    integers: the string has 36 characters, [-] at the positions 8, 13, 18
    and 23, the digit 4 at position 14 and one of 8, 9, A, B at position 19.
    Every index into [lut] is between 0 and 255, so no part of the string is
    the word [undefined]. *)
Theorem generateUUID_layout :
  forall d0 d1 d2 d3 : Z,
    let uuid := MathExt.generateUUID d0 d1 d2 d3 in
    String.length uuid = 36%nat
    /\ String.get 8 uuid = Some MathExt.hyphen
    /\ String.get 13 uuid = Some MathExt.hyphen
    /\ String.get 18 uuid = Some MathExt.hyphen
    /\ String.get 23 uuid = Some MathExt.hyphen
    /\ String.get 14 uuid = Some MathExt.version_4
    /\ exists c, String.get 19 uuid = Some c /\ In c MathExt.variant_digits.
Proof.
  intros d0 d1 d2 d3 uuid. unfold uuid, MathExt.generateUUID.
  pose proof (fun a => land_mask_range a 8 ltac:(lia)) as Hbyte.
  change (Z.ones 8) with 255 in Hbyte. change (2 ^ 8) with 256 in Hbyte.
  pose proof (land_mask_range (Z.shiftr d1 16) 4 ltac:(lia)) as Hver.
  change (Z.ones 4) with 15 in Hver. change (2 ^ 4) with 16 in Hver.
  pose proof (land_mask_range d2 6 ltac:(lia)) as Hvar.
  change (Z.ones 6) with 63 in Hvar. change (2 ^ 6) with 64 in Hvar.
  destruct (version_byte _ Hver) as [Hver_range Hver_digit].
  destruct (variant_byte _ Hvar) as [Hvar_range Hvar_digit].
  rewrite !(lut_two_digits (Z.land _ 255)) by apply Hbyte.
  rewrite (lut_two_digits _ Hver_range), (lut_two_digits _ Hvar_range).
  rewrite Hver_digit.
  cbn [String.append String.length String.get Nat.eqb].
  repeat split.
  set (q := Z.lor (Z.land d2 63) 128 / 16) in *.
  assert (Hq : q = 8 \/ q = 9 \/ q = 10 \/ q = 11) by lia.
  eexists; split; [reflexivity|].
  destruct Hq as [-> | [-> | [-> | ->]]]; cbn; auto.
Qed.
End UUID.
